(** * PeriodicExecutor: a shallow embedding of [include/PeriodicExecutor.hpp]

    The class drives a user callback at a fixed period from a Boost.Asio
    [steady_timer], on a dedicated worker thread that runs
    [io_context::run()].  The embedding keeps the members of the class as a
    record, the Asio objects it owns as small records with the operations
    the class calls on them, and writes every member function in a state
    and exception monad, one monadic statement per C++ statement.

    Granularity.  The member functions are sequential code and are modelled
    as such.  Two models of their execution follow.  In [step] a call on
    the controller thread and a completion handler on the worker thread are
    each one step: these are the schedules in which no call falls inside a
    handler.  In [interleave] the handler is cut at its statements, so that
    calls on the controller thread fall between them, as the class takes
    no lock, and [stop] waits in its join for the handler in progress.  What the environment decides (how far the
    steady clock advances, whether [boost::thread] can be created, how a
    callback execution ends and how long it lasts) is an explicit argument.

    Units.  [std::chrono::milliseconds] values count milliseconds and time
    points of [steady_clock] count nanoseconds, both in 64 bits.  The
    conversion of a duration and the addition of a duration to a time
    point are computed in 64-bit two's complement; statements about exact
    times carry the hypothesis that the exact value is in range.

    Callbacks.  A [std::function<void()>] is empty or holds a callable,
    known by its identity; what the callable does is opaque to the
    scheduler and is represented by the record of its invocations.  Whether
    an execution returns or throws is decided at each invocation. *)

From Stdlib Require Import ZArith NArith List Bool Lia.
Import ListNotations.
Open Scope Z_scope.

(** ** Exceptions and the state monad of the model *)

Inductive exn : Type :=
| thread_resource_error   (* thrown by the constructor of [boost::thread] *)
| bad_function_call       (* thrown by calling an empty [std::function] *)
| callback_exception.     (* thrown by the user's callable *)

Inductive result (A : Type) : Type :=
| Ok (a : A)
| Raise (e : exn).
Arguments Ok {A} a.
Arguments Raise {A} e.

(** ** The Asio objects owned by the executor *)

(** [boost::system::error_code] as delivered to a wait handler. *)
Inductive error_code : Type :=
| success
| operation_aborted
| other_error (value : nat).

Definition error_code_eqb (a b : error_code) : bool :=
  match a, b with
  | success, success => true
  | operation_aborted, operation_aborted => true
  | other_error x, other_error y => Nat.eqb x y
  | _, _ => false
  end.

(** [boost::asio::steady_timer]: its expiry time and the number of
    outstanding [async_wait] operations.  Every wait of this class carries
    the same handler, [handle_wait] bound to [this] through the strand, so
    the outstanding waits are counted, not listed. *)
Record steady_timer : Type := mk_timer {
  expiry : Z;
  waiting : nat
}.

(** [boost::asio::io_context]: the completion handlers that are ready to
    run, oldest first, each with the error code it will receive, and the
    stopped flag set by [io_context::stop()]. *)
Record io_context : Type := mk_io {
  ready : list error_code;
  stopped : bool
}.

(** [std::function<void()>]: empty, or a callable known by its identity. *)
Inductive Callback : Type :=
| empty_function
| callable (identity : nat).

Coercion callable : nat >-> Callback.

(** How one execution of a callable ends, and after how many nanoseconds. *)
Inductive execution : Type :=
| returns_after (duration : N)
| throws_after (duration : N).

Definition execution_time (run : execution) : N :=
  match run with
  | returns_after d => d
  | throws_after d => d
  end.

(** Two's complement in [bits] bits. *)
Definition wrap (bits : Z) (x : Z) : Z :=
  (x + 2 ^ (bits - 1)) mod 2 ^ bits - 2 ^ (bits - 1).

(** The values of a 64-bit signed integer. *)
Definition int64 (x : Z) : Prop := - 2 ^ 63 <= x < 2 ^ 63.

(** ** The members of the class *)

Record PeriodicExecutor : Type := mk_executor {
  callback_ : Callback;
  io_context_ : io_context;
  timer_ : steady_timer;
  work_guard_ : bool;            (* [owns_work()] *)
  worker_thread_ : bool;         (* [joinable()] *)
  interval_ : Z;                 (* milliseconds *)
  is_running_ : bool;
  is_paused_ : bool
}.

(** The executor together with what it observes and produces: the reading
    of [steady_clock::now()] and the callback invocations so far, each with
    the identity of the callable and the time its execution began. *)
Record Machine : Type := mk_machine {
  exec : PeriodicExecutor;
  now : Z;
  invoked : list (nat * Z)
}.

Definition set_callback_ (v : Callback) (p : PeriodicExecutor) :=
  mk_executor v (io_context_ p) (timer_ p) (work_guard_ p) (worker_thread_ p)
              (interval_ p) (is_running_ p) (is_paused_ p).
Definition set_io_context_ (v : io_context) (p : PeriodicExecutor) :=
  mk_executor (callback_ p) v (timer_ p) (work_guard_ p) (worker_thread_ p)
              (interval_ p) (is_running_ p) (is_paused_ p).
Definition set_timer_ (v : steady_timer) (p : PeriodicExecutor) :=
  mk_executor (callback_ p) (io_context_ p) v (work_guard_ p) (worker_thread_ p)
              (interval_ p) (is_running_ p) (is_paused_ p).
Definition set_work_guard_ (v : bool) (p : PeriodicExecutor) :=
  mk_executor (callback_ p) (io_context_ p) (timer_ p) v (worker_thread_ p)
              (interval_ p) (is_running_ p) (is_paused_ p).
Definition set_worker_thread_ (v : bool) (p : PeriodicExecutor) :=
  mk_executor (callback_ p) (io_context_ p) (timer_ p) (work_guard_ p) v
              (interval_ p) (is_running_ p) (is_paused_ p).
Definition set_interval_ (v : Z) (p : PeriodicExecutor) :=
  mk_executor (callback_ p) (io_context_ p) (timer_ p) (work_guard_ p)
              (worker_thread_ p) v (is_running_ p) (is_paused_ p).
Definition set_is_running_ (v : bool) (p : PeriodicExecutor) :=
  mk_executor (callback_ p) (io_context_ p) (timer_ p) (work_guard_ p)
              (worker_thread_ p) (interval_ p) v (is_paused_ p).
Definition set_is_paused_ (v : bool) (p : PeriodicExecutor) :=
  mk_executor (callback_ p) (io_context_ p) (timer_ p) (work_guard_ p)
              (worker_thread_ p) (interval_ p) (is_running_ p) v.

(** Computations over the machine that return a value or throw. *)
Definition M (A : Type) : Type := Machine -> result A * Machine.

Definition ret {A : Type} (a : A) : M A := fun m => (Ok a, m).

Definition throw {A : Type} (e : exn) : M A := fun m => (Raise e, m).

Definition bind {A B : Type} (c : M A) (k : A -> M B) : M B :=
  fun m =>
    match c m with
    | (Ok a, m') => k a m'
    | (Raise e, m') => (Raise e, m')
    end.

Declare Scope exec_scope.
Delimit Scope exec_scope with exec.
Notation "x <- c ;; k" := (bind c (fun x => k))
  (at level 61, c at next level, right associativity) : exec_scope.
Notation "c ;; k" := (bind c (fun _ => k))
  (at level 61, right associativity) : exec_scope.
Open Scope exec_scope.

(** Read a member, update the members, read the clock. *)
Definition member {A : Type} (f : PeriodicExecutor -> A) : M A :=
  fun m => (Ok (f (exec m)), m).

Definition assign (f : PeriodicExecutor -> PeriodicExecutor) : M unit :=
  fun m => (Ok tt, mk_machine (f (exec m)) (now m) (invoked m)).

Definition steady_clock_now : M Z := fun m => (Ok (now m), m).

(** A number of milliseconds in nanoseconds, exactly. *)
Definition exact_ns (ms : Z) : Z := ms * 1000000.

(** A duration in milliseconds converted to the period of [steady_clock],
    a 64-bit count of nanoseconds. *)
Definition to_ns (ms : Z) : Z := wrap 64 (exact_ns ms).

(** A time point plus a duration, both 64-bit counts of nanoseconds. *)
Definition time_plus (t d : Z) : Z := wrap 64 (t + d).

(** *** Operations of [steady_timer] *)

(** [timer_.cancel(ec)]: every outstanding wait completes with
    [operation_aborted]; its handler is queued on the io_context. *)
Definition timer_cancel : M unit :=
  assign (fun p =>
    set_timer_ (mk_timer (expiry (timer_ p)) 0)
      (set_io_context_
         (mk_io (ready (io_context_ p) ++ repeat operation_aborted (waiting (timer_ p)))
                (stopped (io_context_ p))) p)).

(** [timer_.expires_at(t)]: cancels the outstanding waits, then sets the
    expiry. *)
Definition timer_expires_at (t : Z) : M unit :=
  timer_cancel ;;
  assign (fun p => set_timer_ (mk_timer t (waiting (timer_ p))) p).

(** [timer_.expires_from_now(d)]: the same, relative to the clock. *)
Definition timer_expires_from_now (d : Z) : M unit :=
  t <- steady_clock_now ;;
  timer_expires_at (time_plus t (to_ns d)).

(** [timer_.expiry()]. *)
Definition timer_expiry : M Z := member (fun p => expiry (timer_ p)).

(** [timer_.async_wait(bind_executor(strand_, handle_wait))]. *)
Definition timer_async_wait : M unit :=
  assign (fun p => set_timer_ (mk_timer (expiry (timer_ p)) (S (waiting (timer_ p)))) p).

(** *** Operations of the io_context, its work guard and the thread *)

Definition work_guard_reset : M unit := assign (set_work_guard_ false).

Definition io_context_stop : M unit :=
  assign (fun p => set_io_context_ (mk_io (ready (io_context_ p)) true) p).

(** [worker_thread_ = boost::thread(...)]: the constructor either creates
    the thread or throws [thread_resource_error] before anything is
    assigned. *)
Definition thread_create (can_create : bool) : M unit :=
  if can_create then assign (set_worker_thread_ true)
  else throw thread_resource_error.

Definition thread_join : M unit := assign (set_worker_thread_ false).

(** [callback_()]: an empty [std::function] throws [bad_function_call]
    and runs nothing; otherwise the call is recorded with the time it
    began, takes its time, and returns or throws. *)
Definition invoke_callback (run : execution) : M unit :=
  f <- member callback_ ;;
  match f with
  | empty_function => throw bad_function_call
  | callable identity =>
      fun m =>
        ((match run with
          | returns_after _ => Ok tt
          | throws_after _ => Raise callback_exception
          end),
         mk_machine (exec m) (now m + Z.of_N (execution_time run))
                    (invoked m ++ [(identity, now m)]))
  end.

(** ** The member functions *)

(** The constructor.  [interval_] has no initialiser: its value is
    indeterminate and is an argument here. *)
Definition construct (indeterminate : Z) : PeriodicExecutor :=
  mk_executor empty_function (mk_io [] false) (mk_timer 0 0) true false
              indeterminate false false.

Definition start (interval : Z) (callback : Callback) (can_create : bool) : M bool :=
  running <- member is_running_ ;;
  if running then ret false
  else
    assign (set_callback_ callback) ;;
    assign (set_interval_ interval) ;;
    assign (set_is_running_ true) ;;
    assign (set_is_paused_ false) ;;
    i <- member interval_ ;;
    timer_expires_from_now i ;;
    timer_async_wait ;;
    thread_create can_create ;;
    ret true.

Definition stop : M unit :=
  running <- member is_running_ ;;
  if negb running then ret tt
  else
    timer_cancel ;;
    work_guard_reset ;;
    io_context_stop ;;
    joinable <- member worker_thread_ ;;
    (if joinable then thread_join else ret tt) ;;
    assign (set_is_running_ false) ;;
    assign (set_is_paused_ false).

Definition pause : M unit :=
  running <- member is_running_ ;;
  paused <- member is_paused_ ;;
  if negb running || paused then ret tt
  else
    timer_cancel ;;
    assign (set_is_paused_ true).

Definition resume : M unit :=
  running <- member is_running_ ;;
  paused <- member is_paused_ ;;
  if negb running || negb paused then ret tt
  else
    assign (set_is_paused_ false) ;;
    i <- member interval_ ;;
    timer_expires_from_now i ;;
    timer_async_wait.

Definition handle_wait (error : error_code) (run : execution) : M unit :=
  paused <- member is_paused_ ;;
  if error_code_eqb error operation_aborted || paused then ret tt
  else
    invoke_callback run ;;
    e <- timer_expiry ;;
    i <- member interval_ ;;
    timer_expires_at (time_plus e (to_ns i)) ;;
    timer_async_wait.

(** The destructor calls [stop()]. *)
Definition destroy : M unit := stop.

(** ** The lifecycle state of the specification, read off the members *)

Inductive ScheduleState : Type := Idle | Running | Paused | Stopped.

Definition schedule_state (p : PeriodicExecutor) : ScheduleState :=
  if is_running_ p then (if is_paused_ p then Paused else Running)
  else if stopped (io_context_ p) then Stopped else Idle.

(** The flag invariant of the class: the paused flag is only set while the
    running flag is. *)
Definition flags_consistent (p : PeriodicExecutor) : Prop :=
  is_paused_ p = true -> is_running_ p = true.

(** ** The environment: clock, timer service and worker thread *)

(** The steady clock moves forward. *)
Definition clock_advance (dt : N) : M unit :=
  fun m => (Ok tt, mk_machine (exec m) (now m + Z.of_N dt) (invoked m)).

(** The timer service: once the expiry time has been reached, every
    outstanding wait completes with [success] and its handler is queued.
    A wait on an expiry that already lies in the past completes at once. *)
Definition timer_expire : M unit :=
  e <- timer_expiry ;;
  t <- steady_clock_now ;;
  if e <=? t then
    assign (fun p =>
      set_timer_ (mk_timer (expiry (timer_ p)) 0)
        (set_io_context_
           (mk_io (ready (io_context_ p) ++ repeat success (waiting (timer_ p)))
                  (stopped (io_context_ p))) p))
  else ret tt.

(** The worker thread inside [io_context_.run()]: it exists once
    [boost::thread] was created and runs handlers until the context is
    stopped.  One dispatch takes the oldest ready handler and runs
    [handle_wait] with its error code, the callback returning after
    [duration]. *)
Definition worker_dispatch (duration : N) : M unit :=
  alive <- member worker_thread_ ;;
  halted <- member (fun p => stopped (io_context_ p)) ;;
  queue <- member (fun p => ready (io_context_ p)) ;;
  if alive && negb halted then
    match queue with
    | [] => ret tt
    | error :: rest =>
        assign (fun p => set_io_context_ (mk_io rest (stopped (io_context_ p))) p) ;;
        handle_wait error (returns_after duration)
    end
  else ret tt.

(** What can happen to an instance, one step each.  The histories are
    those of a program that hands [start] a callable, not an empty
    function, and whose callable returns: an exception that leaves the
    handler leaves the thread function and ends the program, which
    [handle_wait] shows and which has no continuation to follow. *)
Inductive event : Type :=
| call_start (interval : Z) (callback : nat) (can_create : bool)
| call_stop
| call_pause
| call_resume
| ev_clock (dt : N)
| ev_expire
| ev_dispatch (duration : N).

(** A call on the controller thread leaves the machine in the state the
    call produced, also when [start] threw to its caller.  An exception
    that escapes a handler on the worker thread ends the program
    ([None]). *)
Definition step (e : event) (m : Machine) : option Machine :=
  match e with
  | call_start i cb ok => Some (snd (start i (callable cb) ok m))
  | call_stop => Some (snd (stop m))
  | call_pause => Some (snd (pause m))
  | call_resume => Some (snd (resume m))
  | ev_clock dt => Some (snd (clock_advance dt m))
  | ev_expire => Some (snd (timer_expire m))
  | ev_dispatch d =>
      match worker_dispatch d m with
      | (Ok _, m') => Some m'
      | (Raise _, _) => None
      end
  end.

Fixpoint run (history : list event) (m : Machine) : option Machine :=
  match history with
  | [] => Some m
  | e :: rest =>
      match step e m with
      | Some m' => run rest m'
      | None => None
      end
  end.

(** A freshly constructed instance at clock reading [t0]. *)
Definition fresh (indeterminate t0 : Z) : Machine :=
  mk_machine (construct indeterminate) t0 [].

(** Successive wakes of a running loop: before each one the clock advances
    by [dt], then the wait handler runs with [success] and its callback
    lasts [d]. *)
Fixpoint fired_wakes (ws : list (N * N)) : M unit :=
  match ws with
  | [] => ret tt
  | (dt, d) :: rest =>
      clock_advance dt ;; handle_wait success (returns_after d) ;;
      fired_wakes rest
  end.

(** One turn of [io_context_.run()] when no handler is ready: the thread
    blocks until the timer expires, which takes no time when the expiry
    lies in the past, then the handler is queued and dispatched. *)
Definition wait_time (m : Machine) : N :=
  Z.to_N (expiry (timer_ (exec m)) - now m).

Definition worker_turn (duration : N) (m : Machine) : option Machine :=
  match step (ev_clock (wait_time m)) m with
  | Some m1 =>
      match step ev_expire m1 with
      | Some m2 => step (ev_dispatch duration) m2
      | None => None
      end
  | None => None
  end.

Fixpoint worker_loop (durations : list N) (m : Machine) : option Machine :=
  match durations with
  | [] => Some m
  | d :: rest =>
      match worker_turn d m with
      | Some m' => worker_loop rest m'
      | None => None
      end
  end.

(** The loop is armed: running, not paused, the worker inside [run()], one
    wait outstanding and no handler ready. *)
Definition armed (cb : nat) (m : Machine) : Prop :=
  callback_ (exec m) = callable cb /\
  is_running_ (exec m) = true /\
  is_paused_ (exec m) = false /\
  worker_thread_ (exec m) = true /\
  stopped (io_context_ (exec m)) = false /\
  ready (io_context_ (exec m)) = [] /\
  waiting (timer_ (exec m)) = 1%nat.

Fixpoint total (durations : list N) : Z :=
  match durations with
  | [] => 0
  | d :: rest => Z.of_N d + total rest
  end.

(** A handler is only ever armed or queued once a callback was stored. *)
Definition handlers_have_callback (p : PeriodicExecutor) : Prop :=
  callback_ p = empty_function ->
  is_running_ p = false /\ waiting (timer_ p) = 0%nat /\ ready (io_context_ p) = [].

Definition invariant (p : PeriodicExecutor) : Prop :=
  flags_consistent p /\ handlers_have_callback p.

(** The times at which an armed loop fires, for given callback durations:
    each wake is at the later of the clock reading and the anchor. *)
Fixpoint wake_times (durations : list N) (t anchor period : Z) : list Z :=
  match durations with
  | [] => []
  | d :: rest =>
      Z.max t anchor
      :: wake_times rest (Z.max t anchor + Z.of_N d) (anchor + period) period
  end.

Definition is_resume (e : event) : bool :=
  match e with
  | call_resume => true
  | _ => false
  end.

Definition is_stop (e : event) : bool :=
  match e with
  | call_stop => true
  | _ => false
  end.


(** Some queued handler carries a completed wait, not a cancelled one. *)
Definition has_fired (queue : list error_code) : bool :=
  existsb (fun error => negb (error_code_eqb error operation_aborted)) queue.

(** The state of an instance started at clock reading [t0] with interval
    [i], over the invocations [base] made before: every later invocation
    began at [t0 + i] or after, and unless the io_context is stopped the
    instance runs with that interval, its timer is set no earlier than
    [t0 + i] or that time has passed, and no wake has completed before
    that time. *)
Definition on_schedule
    (t0 i : Z) (base : list (nat * Z)) (m : Machine) : Prop :=
  t0 <= now m /\
  (exists recent,
     invoked m = base ++ recent /\
     Forall (fun call => t0 + exact_ns i <= snd call) recent) /\
  (stopped (io_context_ (exec m)) = true \/
   (is_running_ (exec m) = true /\
    interval_ (exec m) = i /\
    (t0 + exact_ns i <= expiry (timer_ (exec m)) \/
     t0 + exact_ns i <= now m) /\
    (has_fired (ready (io_context_ (exec m))) = true ->
     t0 + exact_ns i <= now m))).

(** ** The wake handler statement by statement

    [handle_wait] tests the paused flag, calls the callback, sets the
    expiry and starts the wait, and the class takes no lock: a call on the
    controller thread can fall between any two of these statements.  Here
    a handler in progress is a state of its own, the statements are those
    of [handle_wait], and [stop] blocks in [join] until the handler in
    progress has run to its end. *)

Inductive handler_state : Type :=
| handler_idle
| before_callback       (* the guard was passed *)
| before_expires_at     (* the callback has returned *)
| before_async_wait.    (* the expiry is set *)

Record Concurrent : Type := mk_concurrent {
  machine : Machine;
  handler : handler_state
}.

Definition handle_wait_guard (error : error_code) : M bool :=
  paused <- member is_paused_ ;;
  ret (negb (error_code_eqb error operation_aborted || paused)).

Definition handle_wait_expires_at : M unit :=
  e <- timer_expiry ;;
  i <- member interval_ ;;
  timer_expires_at (time_plus e (to_ns i)).

(** The next statement of the handler in progress. *)
Definition handler_statement (run : execution) (h : handler_state)
    : M handler_state :=
  match h with
  | handler_idle => ret handler_idle
  | before_callback => invoke_callback run ;; ret before_expires_at
  | before_expires_at => handle_wait_expires_at ;; ret before_async_wait
  | before_async_wait => timer_async_wait ;; ret handler_idle
  end.

(** The handler in progress runs to its end. *)
Definition handler_finish (run : execution) (h : handler_state) : M unit :=
  h1 <- handler_statement run h ;;
  h2 <- handler_statement run h1 ;;
  _ <- handler_statement run h2 ;;
  ret tt.

(** The worker takes the oldest ready handler and evaluates its guard. *)
Definition handler_begin : M handler_state :=
  alive <- member worker_thread_ ;;
  halted <- member (fun p => stopped (io_context_ p)) ;;
  queue <- member (fun p => ready (io_context_ p)) ;;
  if alive && negb halted then
    match queue with
    | [] => ret handler_idle
    | error :: rest =>
        assign (fun p => set_io_context_ (mk_io rest (stopped (io_context_ p))) p) ;;
        go <- handle_wait_guard error ;;
        ret (if go then before_callback else handler_idle)
    end
  else ret handler_idle.

(** [stop()] with its [join]: the worker finishes the handler in progress,
    then leaves [run()]. *)
Definition stop_joining (run : execution) (h : handler_state) : M unit :=
  running <- member is_running_ ;;
  if negb running then ret tt
  else
    timer_cancel ;;
    work_guard_reset ;;
    io_context_stop ;;
    joinable <- member worker_thread_ ;;
    (if joinable then handler_finish run h ;; thread_join else ret tt) ;;
    assign (set_is_running_ false) ;;
    assign (set_is_paused_ false).

(** The destructor, with the join of its [stop()]. *)
Definition destroy_joining (run : execution) (h : handler_state) : M unit :=
  stop_joining run h.

Definition handler_after_stop (m : Machine) (h : handler_state) : handler_state :=
  if is_running_ (exec m) && worker_thread_ (exec m) then handler_idle else h.

Inductive action : Type :=
| act (e : event)               (* a step of [step], in one piece *)
| act_stop (duration : N)       (* [stop()]; a callback in progress lasts [duration] *)
| act_begin                     (* the worker begins a handler *)
| act_statement (duration : N). (* the handler in progress runs one statement *)

Definition stop_action (d : N) (c : Concurrent) : option Concurrent :=
  match stop_joining (returns_after d) (handler c) (machine c) with
  | (Ok _, m') =>
      Some (mk_concurrent m' (handler_after_stop (machine c) (handler c)))
  | (Raise _, _) => None
  end.

Definition interleave (a : action) (c : Concurrent) : option Concurrent :=
  match a with
  | act call_stop => stop_action 0 c
  | act_stop d => stop_action d c
  | act (ev_dispatch d) =>
      match handler c with
      | handler_idle =>
          option_map (fun m' => mk_concurrent m' handler_idle)
                     (step (ev_dispatch d) (machine c))
      | _ => Some c   (* the strand runs one handler at a time *)
      end
  | act e =>
      option_map (fun m' => mk_concurrent m' (handler c)) (step e (machine c))
  | act_begin =>
      match handler c with
      | handler_idle =>
          match handler_begin (machine c) with
          | (Ok h, m') => Some (mk_concurrent m' h)
          | (Raise _, _) => None
          end
      | _ => Some c
      end
  | act_statement d =>
      match handler_statement (returns_after d) (handler c) (machine c) with
      | (Ok h, m') => Some (mk_concurrent m' h)
      | (Raise _, _) => None
      end
  end.

Fixpoint concurrent_run (history : list action) (c : Concurrent)
    : option Concurrent :=
  match history with
  | [] => Some c
  | a :: rest =>
      match interleave a c with
      | Some c' => concurrent_run rest c'
      | None => None
      end
  end.

Definition action_is_resume (a : action) : bool :=
  match a with
  | act e => is_resume e
  | _ => false
  end.


(** ** The measurement callback of the benchmark

    The benchmark starts an executor with an interval of 1 ms and a lambda
    that records, for every execution after the first, the jitter of the
    interval and the phase error against an ideal schedule.  The lambda
    runs on the strand, one execution at a time, so its captured variables
    are a record and one execution is a function of the clock reading.

    The counter is a [std::atomic<int>] and the running total a
    [std::atomic<long long>]: their increments wrap in two's complement.
    The other quantities are plain [long long] values, whose arithmetic is
    kept exact. *)

Definition DESIRED_INTERVAL_NS : Z := 1000000.

Record Measurements : Type := mk_measurements {
  counter : Z;
  total_instantaneous_drift_ns : Z;
  last_actual_execution_ns : Z;
  first_execution_time_ns : Z;
  timing_data : list (Z * Z)
}.

Definition no_measurements : Measurements := mk_measurements 0 0 0 0 [].

(** One execution of the lambda at clock reading
    [current_actual_execution_ns]. *)
Definition measurement_callback
    (current_actual_execution_ns : Z) (b : Measurements) : Measurements :=
  let first :=
    if first_execution_time_ns b =? 0 then current_actual_execution_ns
    else first_execution_time_ns b in
  let prev_actual_execution_ns := last_actual_execution_ns b in
  if prev_actual_execution_ns =? 0 then
    mk_measurements (wrap 32 (counter b + 1))
      (total_instantaneous_drift_ns b) current_actual_execution_ns first
      (timing_data b)
  else
    let count := wrap 32 (counter b + 1) in
    let actual_interval_ns :=
      current_actual_execution_ns - prev_actual_execution_ns in
    let instantaneous_drift :=
      Z.abs (actual_interval_ns - DESIRED_INTERVAL_NS) in
    let expected_execution_ns := first + count * DESIRED_INTERVAL_NS in
    let cumulative_phase_error :=
      current_actual_execution_ns - expected_execution_ns in
    mk_measurements count
      (wrap 64 (total_instantaneous_drift_ns b + instantaneous_drift))
      current_actual_execution_ns first
      (if Z.of_nat (length (timing_data b)) <? 10000
       then timing_data b ++ [(instantaneous_drift, cumulative_phase_error)]
       else timing_data b).

(** The executions of a run, at the given clock readings in order. *)
Definition measure (readings : list Z) (b : Measurements) : Measurements :=
  fold_left (fun acc t => measurement_callback t acc) readings b.

(** The samples the lambda computes for the readings that follow a reading
    [prev], when the counter stands at [k]. *)
Fixpoint samples_after (first k prev : Z) (readings : list Z) : list (Z * Z) :=
  match readings with
  | [] => []
  | t :: rest =>
      (Z.abs (t - prev - DESIRED_INTERVAL_NS),
       t - (first + (k + 1) * DESIRED_INTERVAL_NS))
      :: samples_after first (k + 1) t rest
  end.

(** ** The callback of the small benchmark under [examples/]

    It adds up, over the executions, the distance between the time elapsed
    since the program read the clock before [start] and the execution
    count times 1 ms. *)
Module SmallBenchmark.

Record Totals : Type := mk_totals {
  counter : Z;           (* [std::atomic<int>] *)
  total_drift_ns : Z     (* [std::atomic<long long>] *)
}.

Definition initial : Totals := mk_totals 0 0.

(** One execution of the lambda, [elapsed] nanoseconds after the reading
    taken before [start]. *)
Definition callback (elapsed : Z) (b : Totals) : Totals :=
  let expected_ns := counter b * 1000000 in
  let drift := Z.abs (elapsed - expected_ns) in
  mk_totals (wrap 32 (counter b + 1)) (wrap 64 (total_drift_ns b + drift)).

Definition measure (elapsed : list Z) (b : Totals) : Totals :=
  fold_left (fun acc t => callback t acc) elapsed b.

(** The average the program prints; the division is not guarded. *)
Definition average_drift (b : Totals) : option Z :=
  if counter b =? 0 then None
  else Some (Z.quot (total_drift_ns b) (counter b)).

End SmallBenchmark.

(** ** Concrete machines used to exercise the statements *)

Definition running_machine : Machine := snd (start 100 7%nat true (fresh 0 0)).
Definition paused_machine : Machine := snd (pause running_machine).

(** The running machine 350 ms later, nothing dispatched meanwhile: the
    anchor at 100 ms and the two after it lie in the past. *)
Definition late_machine : Machine := snd (clock_advance 350000000 running_machine).

(** The running machine when its first wait has completed and its handler
    is queued. *)
Definition due_machine : Machine :=
  snd (timer_expire (snd (clock_advance 100000000 running_machine))).

(** A history that starts, fires once, pauses, resumes, stops, starts again
    and pauses. *)
Definition sample_history : list event :=
  [call_start 50 3%nat true; ev_clock 50000000; ev_expire; ev_dispatch 1000;
   call_pause; call_resume; call_stop; call_start 50 3%nat true; call_pause].

Definition sample_final : Machine :=
  match run sample_history (fresh 9 0) with
  | Some m => m
  | None => fresh 9 0
  end.

(** Calls and steps on a running machine that never stop it: a second
    [start], a fired wake, a pause and a resume. *)
Definition busy_history : list event :=
  [call_start 10 8%nat true; ev_clock 100000000; ev_expire; ev_dispatch 1000;
   call_pause; call_start 20 9%nat false; call_resume; ev_clock 100000000;
   ev_expire; ev_dispatch 1000].

Definition late_final : Machine :=
  match run busy_history running_machine with
  | Some m => m
  | None => running_machine
  end.






(** * Properties *)

(** ** 64-bit arithmetic *)

Lemma wrap_in_range (bits x : Z) :
  0 < bits ->
  - 2 ^ (bits - 1) <= x < 2 ^ (bits - 1) ->
  wrap bits x = x.
Proof.
  intros Hb Hx. unfold wrap.
  assert (H2 : 2 ^ bits = 2 * 2 ^ (bits - 1)).
  { replace bits with (Z.succ (bits - 1)) at 1 by lia.
    rewrite Z.pow_succ_r by lia. reflexivity. }
  rewrite Z.mod_small by lia. lia.
Qed.

Lemma wrap_int64 (x : Z) : int64 x -> wrap 64 x = x.
Proof.
  unfold int64. intros H. apply wrap_in_range; [lia|].
  change (2 ^ (64 - 1)) with (2 ^ 63). exact H.
Qed.

Lemma wrap_is_int64 (x : Z) : int64 (wrap 64 x).
Proof.
  unfold int64, wrap. change (2 ^ (64 - 1)) with (2 ^ 63).
  pose proof (Z.mod_pos_bound (x + 2 ^ 63) (2 ^ 64) ltac:(lia)) as H.
  change (2 ^ 64) with (2 * 2 ^ 63) in *. lia.
Qed.

Lemma wrap_plus_l (bits a b : Z) :
  wrap bits (wrap bits a + b) = wrap bits (a + b).
Proof.
  unfold wrap.
  replace ((a + 2 ^ (bits - 1)) mod 2 ^ bits - 2 ^ (bits - 1) + b
           + 2 ^ (bits - 1))
    with ((a + 2 ^ (bits - 1)) mod 2 ^ bits + b) by lia.
  rewrite Zplus_mod_idemp_l. do 2 f_equal. lia.
Qed.

Lemma wrap_plus_r (bits a b : Z) :
  wrap bits (a + wrap bits b) = wrap bits (a + b).
Proof.
  rewrite Z.add_comm, wrap_plus_l. f_equal. lia.
Qed.

(** A time point plus a converted interval is the exact sum, reduced once
    to 64 bits. *)
Lemma time_plus_to_ns (t ms : Z) :
  time_plus t (to_ns ms) = wrap 64 (t + exact_ns ms).
Proof. unfold time_plus, to_ns. apply wrap_plus_r. Qed.

Lemma time_plus_exact (t ms : Z) :
  int64 (t + exact_ns ms) -> time_plus t (to_ns ms) = t + exact_ns ms.
Proof. intros H. rewrite time_plus_to_ns. now apply wrap_int64. Qed.

(** ** What each member function computes, case by case *)

(** Unfolding of the monad and of the record updates. *)
Ltac run_monad :=
  cbv [bind ret throw member assign steady_clock_now timer_cancel
       timer_expires_at timer_expires_from_now timer_expiry timer_async_wait
       work_guard_reset io_context_stop thread_create thread_join
       invoke_callback clock_advance execution_time
       set_callback_ set_io_context_ set_timer_ set_work_guard_
       set_worker_thread_ set_interval_ set_is_running_ set_is_paused_
       exec now invoked callback_ io_context_ timer_ work_guard_
       worker_thread_ interval_ is_running_ is_paused_ expiry waiting ready
       stopped].

Ltac run_step :=
  cbv [step start stop pause resume handle_wait worker_dispatch timer_expire
       snd fst];
  run_monad.

Ltac members :=
  cbn [exec now invoked timer_ io_context_ expiry waiting ready callback_
       worker_thread_ work_guard_ is_running_ is_paused_ stopped interval_].

(** A closed range condition, by evaluation. *)
Ltac in_range :=
  unfold int64; split; [apply Z.leb_le | apply Z.ltb_lt]; lazy; reflexivity.

Lemma start_when_active (i : Z) (cb : Callback) (ok : bool) (m : Machine) :
  is_running_ (exec m) = true -> start i cb ok m = (Ok false, m).
Proof.
  intros H. unfold start, bind, member. rewrite H. reflexivity.
Qed.

Lemma start_when_inactive (i : Z) (cb : Callback) (ok : bool) (m : Machine) :
  is_running_ (exec m) = false ->
  start i cb ok m =
  ((if ok then Ok true else Raise thread_resource_error),
   mk_machine
     (mk_executor cb
        (mk_io (ready (io_context_ (exec m))
                  ++ repeat operation_aborted (waiting (timer_ (exec m))))
               (stopped (io_context_ (exec m))))
        (mk_timer (time_plus (now m) (to_ns i)) 1)
        (work_guard_ (exec m))
        (if ok then true else worker_thread_ (exec m))
        i true false)
     (now m) (invoked m)).
Proof.
  destruct m as [[c io t g w iv r p] n l]. simpl. intros ->.
  unfold start. destruct ok; run_monad; reflexivity.
Qed.

Lemma stop_when_inactive (m : Machine) :
  is_running_ (exec m) = false -> stop m = (Ok tt, m).
Proof.
  intros H. unfold stop, bind, member. rewrite H. reflexivity.
Qed.

Lemma stop_when_active (m : Machine) :
  is_running_ (exec m) = true ->
  stop m =
  (Ok tt,
   mk_machine
     (mk_executor (callback_ (exec m))
        (mk_io (ready (io_context_ (exec m))
                  ++ repeat operation_aborted (waiting (timer_ (exec m))))
               true)
        (mk_timer (expiry (timer_ (exec m))) 0)
        false false (interval_ (exec m)) false false)
     (now m) (invoked m)).
Proof.
  destruct m as [[c io t g w iv r p] n l]. simpl. intros ->.
  unfold stop. destruct w; run_monad; reflexivity.
Qed.

Lemma pause_when_not_running (m : Machine) :
  schedule_state (exec m) <> Running -> pause m = (Ok tt, m).
Proof.
  unfold schedule_state, pause, bind, member.
  destruct (is_running_ (exec m)), (is_paused_ (exec m)); simpl;
    intros H; try reflexivity; now elim H.
Qed.

Lemma pause_when_running (m : Machine) :
  schedule_state (exec m) = Running ->
  pause m =
  (Ok tt,
   mk_machine
     (mk_executor (callback_ (exec m))
        (mk_io (ready (io_context_ (exec m))
                  ++ repeat operation_aborted (waiting (timer_ (exec m))))
               (stopped (io_context_ (exec m))))
        (mk_timer (expiry (timer_ (exec m))) 0)
        (work_guard_ (exec m)) (worker_thread_ (exec m))
        (interval_ (exec m)) true true)
     (now m) (invoked m)).
Proof.
  destruct m as [[c io t g w iv r p] n l]. unfold schedule_state. simpl.
  destruct r, p; try discriminate; try (destruct (stopped io); discriminate).
  intros _. unfold pause. run_monad. reflexivity.
Qed.

Lemma resume_when_not_paused (m : Machine) :
  schedule_state (exec m) <> Paused -> resume m = (Ok tt, m).
Proof.
  unfold schedule_state, resume, bind, member.
  destruct (is_running_ (exec m)), (is_paused_ (exec m)); simpl;
    intros H; try reflexivity; now elim H.
Qed.

Lemma resume_when_paused (m : Machine) :
  schedule_state (exec m) = Paused ->
  resume m =
  (Ok tt,
   mk_machine
     (mk_executor (callback_ (exec m))
        (mk_io (ready (io_context_ (exec m))
                  ++ repeat operation_aborted (waiting (timer_ (exec m))))
               (stopped (io_context_ (exec m))))
        (mk_timer (time_plus (now m) (to_ns (interval_ (exec m)))) 1)
        (work_guard_ (exec m)) (worker_thread_ (exec m))
        (interval_ (exec m)) true false)
     (now m) (invoked m)).
Proof.
  destruct m as [[c io t g w iv r p] n l]. unfold schedule_state. simpl.
  destruct r, p; try discriminate; try (destruct (stopped io); discriminate).
  intros _. unfold resume. run_monad. reflexivity.
Qed.

Lemma handle_wait_returns (error : error_code) (run : execution) (m : Machine) :
  error = operation_aborted \/ is_paused_ (exec m) = true ->
  handle_wait error run m = (Ok tt, m).
Proof.
  intros H. unfold handle_wait, bind, member.
  destruct H as [-> | ->]; simpl; [reflexivity|].
  now rewrite orb_true_r.
Qed.

Lemma error_code_eqb_aborted (error : error_code) :
  error <> operation_aborted -> error_code_eqb error operation_aborted = false.
Proof. destruct error; simpl; intros H; try reflexivity. now elim H. Qed.

Lemma handle_wait_fires (error : error_code) (d : N) (cb : nat) (m : Machine) :
  error <> operation_aborted ->
  is_paused_ (exec m) = false ->
  callback_ (exec m) = callable cb ->
  handle_wait error (returns_after d) m =
  (Ok tt,
   mk_machine
     (mk_executor (callable cb)
        (mk_io (ready (io_context_ (exec m))
                  ++ repeat operation_aborted (waiting (timer_ (exec m))))
               (stopped (io_context_ (exec m))))
        (mk_timer (time_plus (expiry (timer_ (exec m)))
                             (to_ns (interval_ (exec m)))) 1)
        (work_guard_ (exec m)) (worker_thread_ (exec m))
        (interval_ (exec m)) (is_running_ (exec m)) false)
     (now m + Z.of_N d) (invoked m ++ [(cb, now m)])).
Proof.
  intros He. apply error_code_eqb_aborted in He.
  destruct m as [[c io t g w iv r p] n l]. simpl. intros -> ->.
  unfold handle_wait. run_monad. rewrite He. reflexivity.
Qed.

Lemma handle_wait_throws (error : error_code) (d : N) (cb : nat) (m : Machine) :
  error <> operation_aborted ->
  is_paused_ (exec m) = false ->
  callback_ (exec m) = callable cb ->
  handle_wait error (throws_after d) m =
  (Raise callback_exception,
   mk_machine (exec m) (now m + Z.of_N d) (invoked m ++ [(cb, now m)])).
Proof.
  intros He. apply error_code_eqb_aborted in He.
  destruct m as [[c io t g w iv r p] n l]. simpl. intros -> ->.
  unfold handle_wait. run_monad. rewrite He. reflexivity.
Qed.

Lemma handle_wait_empty_callback
    (error : error_code) (run : execution) (m : Machine) :
  error <> operation_aborted ->
  is_paused_ (exec m) = false ->
  callback_ (exec m) = empty_function ->
  handle_wait error run m = (Raise bad_function_call, m).
Proof.
  intros He. apply error_code_eqb_aborted in He.
  destruct m as [[c io t g w iv r p] n l]. simpl. intros -> ->.
  unfold handle_wait. run_monad. rewrite He. reflexivity.
Qed.

Lemma active_is_running (p : PeriodicExecutor) :
  schedule_state p = Running \/ schedule_state p = Paused <->
  is_running_ p = true.
Proof.
  unfold schedule_state.
  destruct (is_running_ p), (is_paused_ p), (stopped (io_context_ p));
    split; intros H; try reflexivity; try discriminate;
    try (destruct H; discriminate); auto.
Qed.

Lemma inactive_is_not_running (p : PeriodicExecutor) :
  schedule_state p = Idle \/ schedule_state p = Stopped <->
  is_running_ p = false.
Proof.
  unfold schedule_state.
  destruct (is_running_ p), (is_paused_ p), (stopped (io_context_ p));
    split; intros H; try reflexivity; try discriminate;
    try (destruct H; discriminate); auto.
Qed.

Lemma fired_wakes_cons (dt d : N) (rest : list (N * N)) (m m1 : Machine) :
  handle_wait success (returns_after d)
    (mk_machine (exec m) (now m + Z.of_N dt) (invoked m))
    = (Ok tt, m1) ->
  fired_wakes ((dt, d) :: rest) m = fired_wakes rest m1.
Proof.
  intros H. cbn [fired_wakes]. unfold bind at 1, clock_advance.
  unfold bind at 1. rewrite H. reflexivity.
Qed.

(** ** The anti-drift anchor *)

(** C1.  While the loop runs, each wake re-arms the timer at the previous
    expiry plus the interval, whatever the clock reads and however long the
    callback took.  After [k] fired wakes from an anchor [A] the timer is
    set to [A + k * interval], computed in the 64 bits of a time point, for
    every interval and every [k]; whenever [A + k * interval] is a value of
    a time point it is the expiry exactly. *)
Theorem anti_drift_anchor (m : Machine) (cb : nat) (ws : list (N * N)) :
  callback_ (exec m) = callable cb ->
  is_paused_ (exec m) = false ->
  int64 (expiry (timer_ (exec m))) ->
  exists m',
    fired_wakes ws m = (Ok tt, m') /\
    interval_ (exec m') = interval_ (exec m) /\
    expiry (timer_ (exec m')) =
      wrap 64 (expiry (timer_ (exec m))
               + Z.of_nat (length ws) * exact_ns (interval_ (exec m))) /\
    (int64 (expiry (timer_ (exec m))
            + Z.of_nat (length ws) * exact_ns (interval_ (exec m))) ->
     expiry (timer_ (exec m')) =
       expiry (timer_ (exec m))
       + Z.of_nat (length ws) * exact_ns (interval_ (exec m))).
Proof.
  intros Hc Hp Ha.
  assert (G : exists m',
             fired_wakes ws m = (Ok tt, m') /\
             interval_ (exec m') = interval_ (exec m) /\
             expiry (timer_ (exec m')) =
               wrap 64 (expiry (timer_ (exec m))
                        + Z.of_nat (length ws) * exact_ns (interval_ (exec m)))).
  { revert m Hc Hp Ha. induction ws as [|[dt d] rest IH]; intros m Hc Hp Ha.
    - exists m. cbn [fired_wakes length Z.of_nat].
      repeat split. rewrite Z.mul_0_l, Z.add_0_r. symmetry.
      now apply wrap_int64.
    - pose proof (handle_wait_fires success d cb
                    (mk_machine (exec m) (now m + Z.of_N dt) (invoked m))
                    ltac:(discriminate) Hp Hc) as H0.
      cbn [exec now invoked] in H0.
      match type of H0 with _ = (_, ?x) => set (m1 := x) in * end.
      destruct (IH m1 eq_refl eq_refl) as (m' & Hrun & Hi & He).
      { subst m1. members. unfold time_plus. apply wrap_is_int64. }
      exists m'. split; [|split].
      + rewrite (fired_wakes_cons dt d rest m m1 H0). exact Hrun.
      + rewrite Hi. reflexivity.
      + rewrite He. subst m1. members.
        rewrite time_plus_to_ns, wrap_plus_l. f_equal.
        cbn [length]. rewrite Nat2Z.inj_succ. lia. }
  destruct G as (m' & Hrun & Hi & He).
  exists m'. repeat split; auto.
  intros Hk. rewrite He. now apply wrap_int64.
Qed.

Lemma anti_drift_anchor_witness :
  exists m',
    fired_wakes [(100000000%N, 10000000%N); (0%N, 250000000%N); (7%N, 0%N)]
                running_machine = (Ok tt, m') /\
    interval_ (exec m') = 100 /\
    expiry (timer_ (exec m')) = 100000000 + 3 * exact_ns 100.
Proof.
  destruct (anti_drift_anchor running_machine 7%nat
              [(100000000%N, 10000000%N); (0%N, 250000000%N); (7%N, 0%N)])
    as (m' & Hrun & Hi & _ & Hexact).
  - reflexivity.
  - reflexivity.
  - in_range.
  - exists m'. split; [exact Hrun|]. split; [exact Hi|].
    apply Hexact. in_range.
Defined.

(** At an interval of 5000000000000 ms one re-arm leaves the 64 bits of a
    time point: the anchor is the sum reduced to 64 bits. *)
Example anti_drift_anchor_wraps :
  option_map (fun m => expiry (timer_ (exec m)))
    (run [call_start 5000000000000 7%nat true; ev_clock 5000000000000000000;
          ev_expire; ev_dispatch 0]
         (fresh 0 0))
  = Some (-8446744073709551616).
Proof. vm_compute. reflexivity. Qed.

(** ** The wake handler *)

(** C2 does not hold as stated.  A wake that is neither cancelled nor
    paused, whose callback throws: the callback is invoked once, the
    exception leaves the handler, and the timer is not re-armed. *)
Lemma wake_handler_throwing_callback :
  is_paused_ (exec due_machine) = false /\
  fst (handle_wait success (throws_after 5) due_machine)
    = Raise callback_exception /\
  invoked (snd (handle_wait success (throws_after 5) due_machine))
    = invoked due_machine ++ [(7%nat, 100000000)] /\
  waiting (timer_ (exec due_machine)) = 0%nat /\
  waiting (timer_ (exec (snd (handle_wait success (throws_after 5)
                                due_machine)))) = 0%nat /\
  expiry (timer_ (exec (snd (handle_wait success (throws_after 5)
                               due_machine))))
    = expiry (timer_ (exec due_machine)).
Proof. vm_compute. repeat split. Qed.

(** C2, as the code has it.  A wake that reports [operation_aborted], or
    that finds the paused flag set, returns and leaves everything as it
    was: no invocation, no new wait.  Any other wake calls the callback.
    When the callable returns, it was invoked once and the timer is
    re-armed, one wait outstanding, at the previous expiry plus the
    interval in the 64 bits of a time point, which is the exact sum
    whenever that is a value of a time point.  When the callable throws,
    it was invoked once, the exception leaves the handler and the timer is
    as it was.  When the stored function is empty, nothing is invoked,
    [bad_function_call] leaves the handler and everything is as it was. *)
Theorem wake_handler_state_machine
    (error : error_code) (run : execution) (m : Machine) :
  (error = operation_aborted \/ is_paused_ (exec m) = true ->
   handle_wait error run m = (Ok tt, m)) /\
  (error <> operation_aborted ->
   is_paused_ (exec m) = false ->
   (forall cb d,
      callback_ (exec m) = callable cb ->
      run = returns_after d ->
      exists m',
        handle_wait error run m = (Ok tt, m') /\
        invoked m' = invoked m ++ [(cb, now m)] /\
        waiting (timer_ (exec m')) = 1%nat /\
        expiry (timer_ (exec m')) =
          wrap 64 (expiry (timer_ (exec m)) + exact_ns (interval_ (exec m))) /\
        (int64 (expiry (timer_ (exec m)) + exact_ns (interval_ (exec m))) ->
         expiry (timer_ (exec m')) =
           expiry (timer_ (exec m)) + exact_ns (interval_ (exec m)))) /\
   (forall cb d,
      callback_ (exec m) = callable cb ->
      run = throws_after d ->
      exists m',
        handle_wait error run m = (Raise callback_exception, m') /\
        invoked m' = invoked m ++ [(cb, now m)] /\
        exec m' = exec m) /\
   (callback_ (exec m) = empty_function ->
    handle_wait error run m = (Raise bad_function_call, m))).
Proof.
  split.
  - apply handle_wait_returns.
  - intros He Hp. split; [|split].
    + intros cb d Hc ->. eexists. split.
      * apply (handle_wait_fires error d cb m He Hp Hc).
      * members. repeat split.
        -- apply time_plus_to_ns.
        -- apply time_plus_exact.
    + intros cb d Hc ->. eexists. split.
      * apply (handle_wait_throws error d cb m He Hp Hc).
      * split; reflexivity.
    + apply handle_wait_empty_callback; assumption.
Qed.

Lemma wake_handler_state_machine_witness :
  handle_wait operation_aborted (returns_after 5) running_machine
    = (Ok tt, running_machine) /\
  handle_wait success (returns_after 5) paused_machine
    = (Ok tt, paused_machine) /\
  (exists m',
     handle_wait success (returns_after 5) due_machine = (Ok tt, m') /\
     invoked m' = [] ++ [(7%nat, 100000000)] /\
     waiting (timer_ (exec m')) = 1%nat /\
     expiry (timer_ (exec m')) = 100000000 + exact_ns 100) /\
  (exists m',
     handle_wait success (throws_after 5) due_machine
       = (Raise callback_exception, m') /\
     invoked m' = [] ++ [(7%nat, 100000000)] /\
     exec m' = exec due_machine) /\
  handle_wait success (returns_after 5) (fresh 0 0)
    = (Raise bad_function_call, fresh 0 0).
Proof.
  split; [|split; [|split; [|split]]].
  - apply (proj1 (wake_handler_state_machine operation_aborted
                    (returns_after 5) running_machine)).
    left. reflexivity.
  - apply (proj1 (wake_handler_state_machine success (returns_after 5)
                    paused_machine)).
    right. reflexivity.
  - destruct (proj1 (proj2 (wake_handler_state_machine success
                              (returns_after 5) due_machine)
                       ltac:(discriminate) eq_refl)
                7%nat 5%N eq_refl eq_refl)
      as (m' & Hw & Hv & Hk & _ & Hexact).
    exists m'. split; [exact Hw|]. split; [exact Hv|]. split; [exact Hk|].
    apply Hexact. in_range.
  - apply (proj1 (proj2 (proj2 (wake_handler_state_machine success
                                  (throws_after 5) due_machine)
                           ltac:(discriminate) eq_refl))
             7%nat 5%N eq_refl eq_refl).
  - apply (proj2 (proj2 (proj2 (wake_handler_state_machine success
                                  (returns_after 5) (fresh 0 0))
                           ltac:(discriminate) eq_refl))).
    reflexivity.
Defined.

(** ** The lifecycle calls *)

(** C3.  On an instance that is active, running or paused, [start] returns
    [false] and the machine is exactly what it was: interval, callback,
    flags, timer and queued handlers. *)
Theorem start_rejected_when_active
    (i : Z) (cb : Callback) (ok : bool) (m : Machine) :
  schedule_state (exec m) = Running \/ schedule_state (exec m) = Paused ->
  start i cb ok m = (Ok false, m).
Proof.
  intros H. apply start_when_active. now apply active_is_running.
Qed.

Lemma start_rejected_when_active_witness :
  start 10 8%nat true running_machine = (Ok false, running_machine) /\
  start 10 8%nat true paused_machine = (Ok false, paused_machine).
Proof.
  split.
  - apply (start_rejected_when_active 10 8%nat true running_machine).
    left. reflexivity.
  - apply (start_rejected_when_active 10 8%nat true paused_machine).
    right. reflexivity.
Defined.

(** C4.  [stop] is idempotent.  A second [stop] changes nothing, [stop] on
    an instance that is idle or stopped changes nothing, and after [stop]
    the running flag is clear and so is the paused flag, on every instance
    whose flags are consistent. *)
Theorem stop_idempotent (m : Machine) :
  stop (snd (stop m)) = (Ok tt, snd (stop m)) /\
  (schedule_state (exec m) = Idle \/ schedule_state (exec m) = Stopped ->
   stop m = (Ok tt, m)) /\
  is_running_ (exec (snd (stop m))) = false /\
  (flags_consistent (exec m) -> is_paused_ (exec (snd (stop m))) = false).
Proof.
  destruct (is_running_ (exec m)) eqn:Hr.
  - rewrite (stop_when_active m Hr). cbn [snd].
    repeat split.
    intros H. apply inactive_is_not_running in H. congruence.
  - rewrite (stop_when_inactive m Hr). cbn [snd].
    rewrite (stop_when_inactive m Hr).
    repeat split; auto.
    intros H. unfold flags_consistent in H.
    destruct (is_paused_ (exec m)); [|reflexivity].
    specialize (H eq_refl). congruence.
Qed.

Lemma stop_idempotent_witness :
  stop (fresh 0 0) = (Ok tt, fresh 0 0) /\
  is_paused_ (exec (snd (stop paused_machine))) = false.
Proof.
  split.
  - apply (proj1 (proj2 (stop_idempotent (fresh 0 0)))). left. reflexivity.
  - apply (proj2 (proj2 (proj2 (stop_idempotent paused_machine)))).
    intros _. reflexivity.
Defined.



(** At an interval of 9223372036855 ms the conversion to nanoseconds
    leaves 64 bits, and the expiry armed by [start] is in the past. *)
Example start_interval_wraps :
  expiry (timer_ (exec (snd (start 9223372036855 7%nat true (fresh 0 0)))))
  = -9223372036854551616.
Proof. vm_compute. reflexivity. Qed.

(** ** Failure to create the worker thread *)

(** C7, where the code is at fault.  When the thread cannot be created,
    [start] on an inactive instance throws [thread_resource_error] to its
    caller, after it has recorded the callback and the interval, set the
    running flag and armed a wait: the instance counts as running though
    no worker thread exists, and every later [start] is refused with
    [false]. *)
Theorem start_thread_failure_leaves_running
    (i : Z) (cb : Callback) (m : Machine) :
  is_running_ (exec m) = false ->
  exists m',
    start i cb false m = (Raise thread_resource_error, m') /\
    is_running_ (exec m') = true /\
    is_paused_ (exec m') = false /\
    worker_thread_ (exec m') = worker_thread_ (exec m) /\
    callback_ (exec m') = cb /\
    interval_ (exec m') = i /\
    waiting (timer_ (exec m')) = 1%nat /\
    m' <> m /\
    forall i' cb' ok, start i' cb' ok m' = (Ok false, m').
Proof.
  intros H. eexists. split.
  - apply (start_when_inactive i cb false m H).
  - members. repeat split.
    intros E. rewrite <- E in H. discriminate H.
Qed.

Lemma start_thread_failure_leaves_running_witness :
  exists m',
    start 100 7%nat false (fresh 0 0) = (Raise thread_resource_error, m') /\
    is_running_ (exec m') = true /\
    is_paused_ (exec m') = false /\
    worker_thread_ (exec m') = worker_thread_ (exec (fresh 0 0)) /\
    callback_ (exec m') = callable 7 /\
    interval_ (exec m') = 100 /\
    waiting (timer_ (exec m')) = 1%nat /\
    m' <> fresh 0 0 /\
    forall i' cb' ok, start i' cb' ok m' = (Ok false, m').
Proof.
  apply (start_thread_failure_leaves_running 100 7%nat (fresh 0 0)).
  reflexivity.
Defined.

(** ** Invariants of the reachable states *)

Lemma fresh_invariant (indeterminate t0 : Z) :
  invariant (exec (fresh indeterminate t0)).
Proof.
  split.
  - intros H. discriminate.
  - intros _. repeat split.
Qed.

Lemma step_invariant (e : event) (m : Machine) :
  invariant (exec m) ->
  exists m', step e m = Some m' /\ invariant (exec m').
Proof.
  destruct m as [[c [q st] [x k] g w iv r p] n l].
  unfold invariant, flags_consistent, handlers_have_callback. simpl.
  intros [Hf Hh].
  destruct c as [|cb].
  - destruct (Hh eq_refl) as (-> & Hk & Hq). simpl in Hk, Hq. subst k q.
    assert (p = false) as ->
        by (destruct p; [specialize (Hf eq_refl); discriminate | reflexivity]).
    destruct e as [i cb' ok| | | |dt| |d]; run_step.
    + destruct ok; eexists; (split; [reflexivity|]); simpl;
        split; auto; discriminate.
    + eexists; (split; [reflexivity|]); simpl; split; auto.
    + eexists; (split; [reflexivity|]); simpl; split; auto.
    + eexists; (split; [reflexivity|]); simpl; split; auto.
    + eexists; (split; [reflexivity|]); simpl; split; auto.
    + destruct (x <=? n); eexists; (split; [reflexivity|]); simpl;
        split; auto.
    + destruct w, st; eexists; (split; [reflexivity|]); simpl; split; auto.
  - clear Hh.
    destruct e as [i cb' ok| | | |dt| |d]; run_step.
    + destruct r, ok; eexists; (split; [reflexivity|]); simpl;
        split; auto; discriminate.
    + destruct r; [destruct w|]; eexists; (split; [reflexivity|]); simpl;
        split; auto; discriminate.
    + destruct r, p; eexists; (split; [reflexivity|]); simpl;
        split; auto; discriminate.
    + destruct r, p; eexists; (split; [reflexivity|]); simpl;
        split; auto; discriminate.
    + eexists; (split; [reflexivity|]); simpl; split; auto; discriminate.
    + destruct (x <=? n); eexists; (split; [reflexivity|]); simpl;
        split; auto; discriminate.
    + destruct w, st, q as [|error q]; simpl;
        try (eexists; (split; [reflexivity|]); simpl; split; auto; discriminate).
      destruct error, p; simpl;
        eexists; (split; [reflexivity|]); simpl; split; auto; discriminate.
Qed.

Lemma run_invariant (history : list event) (m : Machine) :
  invariant (exec m) ->
  exists m', run history m = Some m' /\ invariant (exec m').
Proof.
  revert m. induction history as [|e rest IH]; intros m Hi.
  - exists m. split; [reflexivity | exact Hi].
  - destruct (step_invariant e m Hi) as (m1 & Hs & Hi1).
    destruct (IH m1 Hi1) as (m' & Hr & Hi').
    exists m'. split; [|exact Hi'].
    simpl. rewrite Hs. exact Hr.
Qed.

Lemma run_app (h1 h2 : list event) (m : Machine) :
  run (h1 ++ h2) m =
  match run h1 m with
  | Some m1 => run h2 m1
  | None => None
  end.
Proof.
  revert m. induction h1 as [|e rest IH]; intros m; simpl.
  - reflexivity.
  - destruct (step e m) as [m1|]; [apply IH | reflexivity].
Qed.

(** ** Restart after stop *)

(** C9.  Whatever happened to an instance before, calls of [start],
    [pause], [resume] and [stop] interleaved with the clock, the timer and
    the worker, a completed [stop] leaves both flags clear.  A [start] that
    follows passes the guard: it returns [true] when the worker thread can
    be created, and is never answered with [false]. *)
Theorem restart_after_stop
    (indeterminate t0 : Z) (history : list event) (i : Z) (cb : Callback) :
  exists m,
    run (history ++ [call_stop]) (fresh indeterminate t0) = Some m /\
    is_running_ (exec m) = false /\
    is_paused_ (exec m) = false /\
    fst (start i cb true m) = Ok true /\
    (forall ok, fst (start i cb ok m) <> Ok false).
Proof.
  destruct (run_invariant history (fresh indeterminate t0)
              (fresh_invariant indeterminate t0)) as (m0 & Hrun & Hf & _).
  exists (snd (stop m0)).
  assert (Hr : is_running_ (exec (snd (stop m0))) = false).
  { destruct (is_running_ (exec m0)) eqn:E.
    - rewrite (stop_when_active m0 E). reflexivity.
    - rewrite (stop_when_inactive m0 E). exact E. }
  split; [|split; [exact Hr|split; [|split]]].
  - rewrite run_app, Hrun. reflexivity.
  - destruct (is_running_ (exec m0)) eqn:E.
    + rewrite (stop_when_active m0 E). reflexivity.
    + rewrite (stop_when_inactive m0 E). cbn [snd].
      unfold flags_consistent in Hf.
      destruct (is_paused_ (exec m0)); [|reflexivity].
      specialize (Hf eq_refl). congruence.
  - rewrite (start_when_inactive i cb true _ Hr). reflexivity.
  - intros ok. rewrite (start_when_inactive i cb ok _ Hr).
    destruct ok; discriminate.
Qed.

(** ** The flag invariant *)

(** C10.  In every state reached from a fresh instance, by any sequence of
    calls and of steps of the clock, the timer and the worker, the paused
    flag is set only if the running flag is; and each of [start], [pause],
    [resume] and [stop] keeps it so. *)
Theorem paused_implies_running :
  (forall indeterminate t0 history m,
     run history (fresh indeterminate t0) = Some m ->
     is_paused_ (exec m) = true -> is_running_ (exec m) = true) /\
  (forall i cb ok m,
     flags_consistent (exec m) ->
     flags_consistent (exec (snd (start i cb ok m)))) /\
  (forall m,
     flags_consistent (exec m) -> flags_consistent (exec (snd (pause m)))) /\
  (forall m,
     flags_consistent (exec m) -> flags_consistent (exec (snd (resume m)))) /\
  (forall m,
     flags_consistent (exec m) -> flags_consistent (exec (snd (stop m)))).
Proof.
  split; [|split; [|split; [|split]]].
  - intros j t0 h m Hrun.
    destruct (run_invariant h (fresh j t0) (fresh_invariant j t0))
      as (m' & Hrun' & Hf & _).
    rewrite Hrun in Hrun'. injection Hrun' as <-. exact Hf.
  - intros i cb ok m Hf. destruct (is_running_ (exec m)) eqn:E.
    + rewrite (start_when_active i cb ok m E). exact Hf.
    + rewrite (start_when_inactive i cb ok m E). intros _. reflexivity.
  - intros m Hf. destruct (schedule_state (exec m)) eqn:E;
      try (rewrite pause_when_not_running by (rewrite E; discriminate); exact Hf).
    rewrite (pause_when_running m E). intros _. reflexivity.
  - intros m Hf. destruct (schedule_state (exec m)) eqn:E;
      try (rewrite resume_when_not_paused by (rewrite E; discriminate); exact Hf).
    rewrite (resume_when_paused m E). intros _. reflexivity.
  - intros m Hf. destruct (is_running_ (exec m)) eqn:E.
    + rewrite (stop_when_active m E). intros H. discriminate.
    + rewrite (stop_when_inactive m E). exact Hf.
Qed.

Lemma paused_implies_running_witness :
  is_running_ (exec sample_final) = true /\
  flags_consistent (exec (snd (stop paused_machine))).
Proof.
  split.
  - apply (proj1 paused_implies_running 9 0 sample_history sample_final).
    + lazy. reflexivity.
    + lazy. reflexivity.
  - apply (proj2 (proj2 (proj2 (proj2 paused_implies_running))) paused_machine).
    intros _. reflexivity.
Defined.

(** ** Overrun: the loop catches up in a burst *)

Lemma blocked_until_expiry (t e : Z) :
  t + Z.of_N (Z.to_N (e - t)) = Z.max t e.
Proof. lia. Qed.

Lemma between_int64 (a j : Z) (k n : nat) :
  int64 a -> int64 (a + Z.of_nat n * j) -> (k <= n)%nat ->
  int64 (a + Z.of_nat k * j).
Proof.
  unfold int64. intros Ha Hn Hk.
  destruct (Z.le_gt_cases 0 j); split; nia.
Qed.

(** One turn of an armed loop: the handler fires at the later of the clock
    reading and the expiry, the callback runs, and the loop is armed again
    one interval after the previous expiry. *)
Lemma worker_turn_armed (cb : nat) (d : N) (m : Machine) :
  armed cb m ->
  worker_turn d m =
  Some (mk_machine
          (mk_executor (callable cb) (mk_io [] false)
             (mk_timer (time_plus (expiry (timer_ (exec m)))
                                  (to_ns (interval_ (exec m)))) 1)
             (work_guard_ (exec m)) true (interval_ (exec m)) true false)
          (Z.max (now m) (expiry (timer_ (exec m))) + Z.of_N d)
          (invoked m ++ [(cb, Z.max (now m) (expiry (timer_ (exec m))))])).
Proof.
  destruct m as [[c [q st] [x k] g w iv r p] n l].
  unfold armed. members. intros (-> & -> & -> & -> & -> & -> & ->).
  unfold worker_turn, wait_time. cbn [step exec timer_ expiry now].
  unfold clock_advance. cbn [snd exec now invoked].
  rewrite blocked_until_expiry.
  unfold timer_expire, timer_expiry, steady_clock_now, bind, member.
  cbn [exec now timer_ expiry].
  destruct (Z.leb_spec x (Z.max n x)) as [_|Hlt]; [|lia].
  run_step. reflexivity.
Qed.

Lemma worker_turn_keeps_armed (cb : nat) (d : N) (m m' : Machine) :
  armed cb m -> worker_turn d m = Some m' -> armed cb m'.
Proof.
  intros Ha H. rewrite (worker_turn_armed cb d m Ha) in H.
  injection H as <-. unfold armed. members. repeat split.
Qed.

Lemma worker_loop_app (d1 d2 : list N) (m : Machine) :
  worker_loop (d1 ++ d2) m =
  match worker_loop d1 m with
  | Some m1 => worker_loop d2 m1
  | None => None
  end.
Proof.
  revert m. induction d1 as [|d rest IH]; intros m; simpl.
  - reflexivity.
  - destruct (worker_turn d m) as [m1|]; [apply IH | reflexivity].
Qed.

Lemma wake_times_length (ds : list N) (t a p : Z) :
  length (wake_times ds t a p) = length ds.
Proof.
  revert t a. induction ds as [|d rest IH]; intros t a; simpl;
    [reflexivity | now rewrite IH].
Qed.

Lemma wake_times_burst (ds : list N) (t a p : Z) (j : nat) :
  0 <= p ->
  (j < length ds)%nat ->
  a + Z.of_nat j * p <= t ->
  nth j (wake_times ds t a p) 0 = t + total (firstn j ds).
Proof.
  intros Hp. revert t a j.
  induction ds as [|d rest IH]; intros t a j Hj Hle; simpl in Hj; [lia|].
  destruct j as [|j].
  - simpl. simpl in Hle. lia.
  - cbn [wake_times nth firstn total].
    assert (Ha : a <= t) by nia.
    rewrite (Z.max_l t a Ha).
    rewrite IH; [lia | lia | nia].
Qed.

Lemma wake_times_not_early (ds : list N) (t a p : Z) (j : nat) :
  (j < length ds)%nat ->
  a + Z.of_nat j * p <= nth j (wake_times ds t a p) 0.
Proof.
  revert t a j.
  induction ds as [|d rest IH]; intros t a j Hj; simpl in Hj; [lia|].
  destruct j as [|j].
  - simpl. lia.
  - cbn [wake_times nth].
    specialize (IH (Z.max t a + Z.of_N d) (a + p) j ltac:(lia)).
    rewrite Nat2Z.inj_succ. lia.
Qed.

(** An armed loop whose anchors stay values of a time point. *)
Lemma worker_loop_armed (cb : nat) (ds : list N) (m : Machine) :
  armed cb m ->
  int64 (expiry (timer_ (exec m))) ->
  int64 (expiry (timer_ (exec m))
         + Z.of_nat (length ds) * exact_ns (interval_ (exec m))) ->
  exists m',
    worker_loop ds m = Some m' /\
    armed cb m' /\
    interval_ (exec m') = interval_ (exec m) /\
    expiry (timer_ (exec m')) =
      expiry (timer_ (exec m))
      + Z.of_nat (length ds) * exact_ns (interval_ (exec m)) /\
    invoked m' =
      invoked m
      ++ map (pair cb)
           (wake_times ds (now m) (expiry (timer_ (exec m)))
                       (exact_ns (interval_ (exec m)))).
Proof.
  revert m. induction ds as [|d rest IH]; intros m Ha He Hn.
  - exists m. simpl. rewrite app_nil_r.
    split; [reflexivity|split; [exact Ha|split; [reflexivity|split; [lia|reflexivity]]]].
  - pose proof (worker_turn_armed cb d m Ha) as Ht.
    assert (H1 : int64 (expiry (timer_ (exec m))
                        + exact_ns (interval_ (exec m)))).
    { pose proof (between_int64 _ _ 1 _ He Hn ltac:(cbn [length]; lia)) as B.
      replace (Z.of_nat 1 * exact_ns (interval_ (exec m)))
        with (exact_ns (interval_ (exec m))) in B by lia.
      exact B. }
    rewrite (time_plus_exact _ _ H1) in Ht.
    match type of Ht with _ = Some ?x => set (m1 := x) in * end.
    destruct (IH m1 (worker_turn_keeps_armed cb d m m1 Ha Ht))
      as (m' & Hl & Ha' & Hi & He' & Hv).
    { subst m1. members. exact H1. }
    { subst m1. members. cbn [length] in Hn. rewrite Nat2Z.inj_succ in Hn.
      replace (expiry (timer_ (exec m)) + exact_ns (interval_ (exec m))
               + Z.of_nat (length rest) * exact_ns (interval_ (exec m)))
        with (expiry (timer_ (exec m))
              + Z.succ (Z.of_nat (length rest))
                * exact_ns (interval_ (exec m))) by lia.
      exact Hn. }
    exists m'. split; [|split; [exact Ha'|split; [|split]]].
    + simpl. rewrite Ht. exact Hl.
    + rewrite Hi. reflexivity.
    + rewrite He'. subst m1. members. cbn [length].
      rewrite Nat2Z.inj_succ. lia.
    + rewrite Hv. subst m1. members.
      rewrite <- app_assoc. reflexivity.
Qed.

(** C6.  An armed loop, run for any callback durations while its anchors
    stay values of a time point, invokes the callback once per turn and
    moves the anchor by exactly one interval per turn, whatever the clock
    reads, so no tick is skipped and no invocation is earlier than its
    anchor.  When a callback has run longer than the interval, the anchor
    armed after it lies in the past and the wait on it takes no time.
    Every anchor that already lies in the past is served back to back: its
    invocation begins the moment the previous ones have returned. *)
Theorem overrun_catch_up_burst (cb : nat) (m : Machine) (ds : list N) :
  armed cb m ->
  int64 (expiry (timer_ (exec m))) ->
  int64 (expiry (timer_ (exec m))
         + Z.of_nat (length ds) * exact_ns (interval_ (exec m))) ->
  exists m' times,
    worker_loop ds m = Some m' /\
    invoked m' = invoked m ++ map (pair cb) times /\
    length times = length ds /\
    expiry (timer_ (exec m')) =
      expiry (timer_ (exec m))
      + Z.of_nat (length ds) * exact_ns (interval_ (exec m)) /\
    (forall j, (j < length ds)%nat ->
       expiry (timer_ (exec m)) + Z.of_nat j * exact_ns (interval_ (exec m))
       <= nth j times 0) /\
    (0 <= interval_ (exec m) ->
     forall j, (j < length ds)%nat ->
       expiry (timer_ (exec m)) + Z.of_nat j * exact_ns (interval_ (exec m))
       <= now m ->
       nth j times 0 = now m + total (firstn j ds)) /\
    (forall ds0 d, ds = ds0 ++ [d] ->
       exact_ns (interval_ (exec m)) < Z.of_N d ->
       expiry (timer_ (exec m')) < now m' /\ wait_time m' = 0%N).
Proof.
  intros Ha He Hn.
  destruct (worker_loop_armed cb ds m Ha He Hn)
    as (m' & Hl & Ha' & Hi & He' & Hv).
  exists m', (wake_times ds (now m) (expiry (timer_ (exec m)))
                         (exact_ns (interval_ (exec m)))).
  split; [exact Hl|]. split; [exact Hv|].
  split; [apply wake_times_length|]. split; [exact He'|].
  split; [|split].
  - intros j Hj. now apply wake_times_not_early.
  - intros Hp j Hj Hle. apply wake_times_burst; auto.
    unfold exact_ns. lia.
  - intros ds0 d Hds Hd. subst ds.
    rewrite worker_loop_app in Hl.
    assert (Hn0 : int64 (expiry (timer_ (exec m))
                         + Z.of_nat (length ds0)
                           * exact_ns (interval_ (exec m)))).
    { apply (between_int64 _ _ _ _ He Hn). rewrite length_app. lia. }
    destruct (worker_loop_armed cb ds0 m Ha He Hn0)
      as (m0 & Hl0 & Ha0 & Hi0 & He0 & _).
    rewrite Hl0 in Hl. cbn [worker_loop] in Hl.
    rewrite (worker_turn_armed cb d m0 Ha0) in Hl.
    injection Hl as <-. unfold wait_time. members.
    assert (H1 : int64 (expiry (timer_ (exec m0))
                        + exact_ns (interval_ (exec m0)))).
    { rewrite He0, Hi0. rewrite length_app in Hn. cbn [length] in Hn.
      rewrite Nat2Z.inj_add in Hn. cbn [Z.of_nat] in Hn.
      replace (expiry (timer_ (exec m))
               + Z.of_nat (length ds0) * exact_ns (interval_ (exec m))
               + exact_ns (interval_ (exec m)))
        with (expiry (timer_ (exec m))
              + (Z.of_nat (length ds0) + Z.pos 1)
                * exact_ns (interval_ (exec m))) by lia.
      exact Hn. }
    rewrite (time_plus_exact _ _ H1), Hi0. lia.
Qed.

Lemma overrun_catch_up_burst_witness :
  exists m' times,
    worker_loop [0%N; 5%N; 250000000%N] late_machine = Some m' /\
    invoked m' = invoked late_machine ++ map (pair 7%nat) times /\
    length times = 3%nat /\
    expiry (timer_ (exec m')) = 100000000 + 3 * exact_ns 100 /\
    100000000 + 2 * exact_ns 100 <= nth 2 times 0 /\
    nth 1 times 0 = 350000000 + total [0%N] /\
    nth 2 times 0 = 350000000 + total [0%N; 5%N] /\
    expiry (timer_ (exec m')) < now m' /\
    wait_time m' = 0%N.
Proof.
  destruct (overrun_catch_up_burst 7%nat late_machine
              [0%N; 5%N; 250000000%N])
    as (m' & times & Hl & Hv & Hlen & He & Hnot_early & Hburst & Hover).
  - lazy. repeat split.
  - in_range.
  - in_range.
  - exists m', times.
    split; [exact Hl|]. split; [exact Hv|]. split; [exact Hlen|].
    split; [exact He|].
    split; [apply (Hnot_early 2%nat); simpl; lia|].
    split; [apply (Hburst ltac:(lazy; discriminate) 1%nat);
            [simpl; lia | lazy; discriminate]|].
    split; [apply (Hburst ltac:(lazy; discriminate) 2%nat);
            [simpl; lia | lazy; discriminate]|].
    apply (Hover [0%N; 5%N] 250000000%N); [reflexivity | lazy; reflexivity].
Defined.

(** The loop of the running machine when the first callback lasts 250 ms at
    an interval of 100 ms: the ticks at 200 ms and 300 ms are served at
    350 ms, one after the other, and the tick at 400 ms is on time. *)
Example overrun_catch_up_trace :
  option_map invoked (worker_loop [250000000%N; 0%N; 0%N; 0%N] running_machine)
  = Some [(7%nat, 100000000); (7%nat, 350000000); (7%nat, 350000000);
          (7%nat, 400000000)].
Proof. lazy. reflexivity. Qed.

(** ** After a stop *)

(** [stop] on an active instance stops the io_context, and nothing in the
    class restarts it: from then on no step invokes the callback, also
    after a later [start]. *)
Lemma step_once_stopped (e : event) (m m' : Machine) :
  stopped (io_context_ (exec m)) = true ->
  step e m = Some m' ->
  stopped (io_context_ (exec m')) = true /\ invoked m' = invoked m.
Proof.
  destruct m as [[c [q st] [x k] g w iv r p] n l]. simpl. intros ->.
  destruct e as [i cb' ok| | | |dt| |d]; run_step.
  - destruct r, ok; intros [= <-]; split; reflexivity.
  - destruct r; [destruct w|]; intros [= <-]; split; reflexivity.
  - destruct r, p; intros [= <-]; split; reflexivity.
  - destruct r, p; intros [= <-]; split; reflexivity.
  - intros [= <-]; split; reflexivity.
  - destruct (x <=? n); intros [= <-]; split; reflexivity.
  - destruct w; intros [= <-]; split; reflexivity.
Qed.

Lemma run_once_stopped (history : list event) (m m' : Machine) :
  stopped (io_context_ (exec m)) = true ->
  run history m = Some m' ->
  stopped (io_context_ (exec m')) = true /\ invoked m' = invoked m.
Proof.
  revert m. induction history as [|e rest IH]; intros m Hs; simpl.
  - intros [= <-]. split; [exact Hs | reflexivity].
  - destruct (step e m) as [m1|] eqn:E; [|discriminate].
    destruct (step_once_stopped e m m1 Hs E) as [Hs1 Hv1].
    intros H. destruct (IH m1 Hs1 H) as [Hs' Hv'].
    split; [exact Hs' | congruence].
Qed.

Lemma no_invocation_after_stop (history : list event) (m m' : Machine) :
  is_running_ (exec m) = true ->
  run (call_stop :: history) m = Some m' ->
  invoked m' = invoked m.
Proof.
  intros Hr. cbn [run step]. rewrite (stop_when_active m Hr). cbn [snd].
  intros H. apply run_once_stopped in H; [|reflexivity].
  destruct H as [_ H]. exact H.
Qed.

(** ** Scenarios of the unit tests, on the model *)

(** A second [start] on a started instance is refused; a wake that was
    already queued when [pause] was called reaches the handler with
    [success] and is dropped by the paused flag. *)
Example second_start_refused :
  fst (start 10 8%nat true running_machine) = Ok false.
Proof. reflexivity. Qed.

Example queued_wake_dropped_while_paused :
  option_map invoked
    (run [call_start 100 7%nat true; ev_clock 100000000; ev_expire;
          call_pause; ev_dispatch 0; ev_clock 500000000; ev_expire;
          ev_dispatch 0]
         (fresh 0 0))
  = Some [].
Proof. lazy. reflexivity. Qed.

Example pause_then_resume_counts :
  option_map invoked
    (run [call_start 100 7%nat true; ev_clock 100000000; ev_expire;
          ev_dispatch 0; call_pause; ev_dispatch 0; ev_clock 500000000;
          ev_expire; ev_dispatch 0; call_resume; ev_clock 100000000;
          ev_expire; ev_dispatch 0; call_stop; ev_clock 200000000;
          ev_expire; ev_dispatch 0]
         (fresh 0 0))
  = Some [(7%nat, 100000000); (7%nat, 700000000)].
Proof. lazy. reflexivity. Qed.

(** * Further properties of the class *)

(** ** [start] on an inactive instance *)



(** ** [pause] *)

(** X2.  [pause] changes nothing unless the instance is running and not paused.
    On a running instance it sets the paused flag and cancels the wait:
    none is left outstanding and each cancelled one is queued with
    [operation_aborted].  The interval, the callback, the expiry and the
    worker thread are kept, nothing is invoked, and a second [pause]
    changes nothing more. *)
Theorem pause_cancels_wait (m : Machine) :
  (schedule_state (exec m) <> Running -> pause m = (Ok tt, m)) /\
  (schedule_state (exec m) = Running ->
   exists m',
     pause m = (Ok tt, m') /\
     schedule_state (exec m') = Paused /\
     waiting (timer_ (exec m')) = 0%nat /\
     ready (io_context_ (exec m')) =
       ready (io_context_ (exec m))
       ++ repeat operation_aborted (waiting (timer_ (exec m))) /\
     expiry (timer_ (exec m')) = expiry (timer_ (exec m)) /\
     interval_ (exec m') = interval_ (exec m) /\
     callback_ (exec m') = callback_ (exec m) /\
     worker_thread_ (exec m') = worker_thread_ (exec m) /\
     stopped (io_context_ (exec m')) = stopped (io_context_ (exec m)) /\
     invoked m' = invoked m /\
     pause m' = (Ok tt, m')).
Proof.
  split.
  - apply pause_when_not_running.
  - intros H. eexists. split.
    + apply (pause_when_running m H).
    + repeat split.
Qed.

Lemma pause_cancels_wait_witness :
  pause (fresh 0 0) = (Ok tt, fresh 0 0) /\
  exists m',
    pause running_machine = (Ok tt, m') /\
    schedule_state (exec m') = Paused /\
    waiting (timer_ (exec m')) = 0%nat /\
    ready (io_context_ (exec m')) = [] ++ repeat operation_aborted 1 /\
    expiry (timer_ (exec m')) = 100000000 /\
    interval_ (exec m') = 100 /\
    callback_ (exec m') = callable 7 /\
    worker_thread_ (exec m') = true /\
    stopped (io_context_ (exec m')) = false /\
    invoked m' = [] /\
    pause m' = (Ok tt, m').
Proof.
  split.
  - apply (proj1 (pause_cancels_wait (fresh 0 0))). discriminate.
  - apply (proj2 (pause_cancels_wait running_machine)). reflexivity.
Defined.


(** ** Across a pause *)

Lemma step_held (e : event) (m : Machine) :
  is_resume e = false ->
  (is_running_ (exec m) = true /\ is_paused_ (exec m) = true)
  \/ stopped (io_context_ (exec m)) = true ->
  exists m',
    step e m = Some m' /\
    invoked m' = invoked m /\
    ((is_running_ (exec m') = true /\ is_paused_ (exec m') = true)
     \/ stopped (io_context_ (exec m')) = true).
Proof.
  destruct m as [[c [q st] [x k] g w iv r p] n l]. simpl.
  intros He [[-> ->] | ->].
  - destruct e as [i cb' ok| | | |dt| |d]; try discriminate; run_step.
    + eexists; repeat split; auto.
    + destruct w; eexists; repeat split; auto.
    + eexists; repeat split; auto.
    + eexists; repeat split; auto.
    + destruct (x <=? n); eexists; repeat split; auto.
    + destruct w, st, q as [|error q]; simpl;
        try (eexists; repeat split; auto; fail).
      destruct error; simpl; eexists; repeat split; auto.
  - destruct e as [i cb' ok| | | |dt| |d]; try discriminate; run_step.
    + destruct r, ok; eexists; repeat split; auto.
    + destruct r; [destruct w|]; eexists; repeat split; auto.
    + destruct r, p; eexists; repeat split; auto.
    + eexists; repeat split; auto.
    + destruct (x <=? n); eexists; repeat split; auto.
    + destruct w; eexists; repeat split; auto.
Qed.






(** ** The interval and the callback of an active instance *)

Lemma step_keeps_schedule (e : event) (m m' : Machine) :
  is_running_ (exec m) = true ->
  is_stop e = false ->
  step e m = Some m' ->
  is_running_ (exec m') = true /\
  interval_ (exec m') = interval_ (exec m) /\
  callback_ (exec m') = callback_ (exec m).
Proof.
  destruct m as [[c [q st] [x k] g w iv r p] n l]. simpl. intros ->.
  destruct e as [i cb' ok| | | |dt| |d]; try discriminate; intros _;
    run_step.
  - intros [= <-]; simpl; auto.
  - destruct p; intros [= <-]; simpl; auto.
  - destruct p; intros [= <-]; simpl; auto.
  - intros [= <-]; simpl; auto.
  - destruct (x <=? n); intros [= <-]; simpl; auto.
  - destruct w, st, q as [|error q]; simpl;
      try (intros [= <-]; simpl; auto; fail).
    destruct error, p, c; simpl; try discriminate;
      intros [= <-]; simpl; auto.
Qed.

(** X8.  While an instance is active, until [stop] is called, the interval and
    the callback given to the successful [start] cannot be replaced: not by
    further calls of [start], not by [pause] or [resume], and not by the
    wake handler. *)
Theorem schedule_fixed_while_active (history : list event) (m m' : Machine) :
  is_running_ (exec m) = true ->
  forallb (fun e => negb (is_stop e)) history = true ->
  run history m = Some m' ->
  is_running_ (exec m') = true /\
  interval_ (exec m') = interval_ (exec m) /\
  callback_ (exec m') = callback_ (exec m).
Proof.
  revert m. induction history as [|e rest IH]; intros m Hr Hh; cbn [run].
  - intros [= <-]. auto.
  - cbn [forallb] in Hh. apply andb_prop in Hh. destruct Hh as [He Hrest].
    apply negb_true_iff in He.
    destruct (step e m) as [m1|] eqn:E; [|discriminate].
    destruct (step_keeps_schedule e m m1 Hr He E) as (Hr1 & Hi1 & Hc1).
    intros H. destruct (IH m1 Hr1 Hrest H) as (Hr' & Hi' & Hc').
    repeat split; congruence.
Qed.

Lemma schedule_fixed_while_active_witness :
  is_running_ (exec late_final) = true /\
  interval_ (exec late_final) = interval_ (exec running_machine) /\
  callback_ (exec late_final) = callback_ (exec running_machine).
Proof.
  apply (schedule_fixed_while_active busy_history running_machine late_final).
  - reflexivity.
  - reflexivity.
  - lazy. reflexivity.
Defined.

(** ** After [stop] *)



(** ** The first invocation *)

Lemma has_fired_cancelled (queue : list error_code) (k : nat) :
  has_fired (queue ++ repeat operation_aborted k) = has_fired queue.
Proof.
  unfold has_fired. rewrite existsb_app.
  replace (existsb _ (repeat operation_aborted k)) with false;
    [apply orb_false_r|].
  induction k as [|k IH]; simpl; [reflexivity | exact IH].
Qed.

Lemma step_clock_monotone (e : event) (m m' : Machine) :
  step e m = Some m' -> now m <= now m'.
Proof.
  destruct m as [[c [q st] [x k] g w iv r p] n l].
  destruct e as [j cb' ok| | | |dt| |d]; run_step.
  - destruct r, ok; intros [= <-]; simpl; lia.
  - destruct r; [destruct w|]; intros [= <-]; simpl; lia.
  - destruct r, p; intros [= <-]; simpl; lia.
  - destruct r, p; intros [= <-]; simpl; lia.
  - intros [= <-]; simpl; lia.
  - destruct (x <=? n); intros [= <-]; simpl; lia.
  - destruct w, st, q as [|error q]; simpl;
      try (intros [= <-]; simpl; lia).
    destruct error, p, c; simpl; try discriminate;
      intros [= <-]; simpl; lia.
Qed.

Lemma run_clock_monotone (history : list event) (m m' : Machine) :
  run history m = Some m' -> now m <= now m'.
Proof.
  revert m. induction history as [|e rest IH]; intros m; cbn [run].
  - intros [= <-]. lia.
  - destruct (step e m) as [m1|] eqn:E; [|discriminate].
    intros H. apply step_clock_monotone in E. apply IH in H. lia.
Qed.

Ltac keep_schedule Hx Hq :=
  members;
  split; [lia|split; [eauto|]];
  first
    [ left; reflexivity
    | right; split; [reflexivity|split; [reflexivity|split]];
      [ first [exact Hx | lia]
      | first
          [ exact Hq
          | rewrite has_fired_cancelled; exact Hq
          | let H := fresh in intros H; try specialize (Hq H); lia ] ] ].

Lemma step_on_schedule
    (t0 i : Z) (base : list (nat * Z)) (e : event) (m m' : Machine) :
  0 <= i ->
  - 2 ^ 63 <= t0 ->
  now m + exact_ns i < 2 ^ 63 ->
  on_schedule t0 i base m ->
  step e m = Some m' ->
  on_schedule t0 i base m'.
Proof.
  intros Hi Hlow Hhigh.
  destruct m as [[c [q st] [x k] g w iv r p] n l].
  unfold on_schedule. members. cbn [now] in Hhigh.
  intros (Ht & (recent & Hl & Hall) & Hs).
  assert (Hni : 0 <= exact_ns i) by (unfold exact_ns; lia).
  destruct Hs as [-> | (-> & -> & Hx & Hq)].
  - (* the io_context is stopped *)
    assert (Hx : True) by exact I. assert (Hq : True) by exact I.
    destruct e as [j cb' ok| | | |dt| |d]; run_step.
    + destruct r, ok; intros [= <-]; keep_schedule Hx Hq.
    + destruct r; [destruct w|]; intros [= <-]; keep_schedule Hx Hq.
    + destruct r, p; intros [= <-]; keep_schedule Hx Hq.
    + destruct r, p; intros [= <-]; keep_schedule Hx Hq.
    + intros [= <-]; keep_schedule Hx Hq.
    + destruct (x <=? n); intros [= <-]; keep_schedule Hx Hq.
    + destruct w; intros [= <-]; keep_schedule Hx Hq.
  - (* the instance runs *)
    destruct e as [j cb' ok| | | |dt| |d]; run_step.
    + intros [= <-]; keep_schedule Hx Hq.
    + destruct w; intros [= <-]; keep_schedule Hx Hq.
    + destruct p; intros [= <-]; keep_schedule Hx Hq.
    + destruct p; intros [= <-]; [|keep_schedule Hx Hq].
      rewrite time_plus_exact by (unfold int64; lia).
      keep_schedule Hx Hq.
    + intros [= <-]; keep_schedule Hx Hq.
    + destruct (Z.leb_spec x n) as [Hle|Hgt]; intros [= <-];
        keep_schedule Hx Hq.
    + destruct w, st; try (intros [= <-]; keep_schedule Hx Hq; fail).
      destruct q as [|error q]; [intros [= <-]; keep_schedule Hx Hq|].
      cbn [has_fired existsb] in Hq.
      destruct (error_code_eqb error operation_aborted) eqn:Eab;
        cbn [andb orb negb] in *.
      { intros [= <-]; keep_schedule Hx Hq. }
      specialize (Hq eq_refl).
      destruct p; cbn [andb orb negb].
      { intros [= <-]; keep_schedule Hx Hq. }
      destruct c as [|cb]; [discriminate|].
      intros [= <-]. members.
      split; [lia|split].
      * exists (recent ++ [(cb, n)]). split.
        -- rewrite Hl, app_assoc. reflexivity.
        -- apply Forall_app. split; [exact Hall|].
           constructor; [exact Hq | constructor].
      * right. split; [reflexivity|split; [reflexivity|split]].
        -- right. lia.
        -- intros _. lia.
Qed.

Lemma run_on_schedule
    (t0 i : Z) (base : list (nat * Z)) (history : list event)
    (m m' : Machine) :
  0 <= i ->
  - 2 ^ 63 <= t0 ->
  now m' + exact_ns i < 2 ^ 63 ->
  on_schedule t0 i base m ->
  run history m = Some m' ->
  on_schedule t0 i base m'.
Proof.
  intros Hi Hlow Hhigh. revert m.
  induction history as [|e rest IH]; intros m Hs; cbn [run].
  - intros [= <-]. exact Hs.
  - destruct (step e m) as [m1|] eqn:E; [|discriminate].
    intros Hrun. apply (IH m1); [|exact Hrun].
    apply (step_on_schedule t0 i base e m m1 Hi Hlow); [|exact Hs|exact E].
    pose proof (step_clock_monotone e m m1 E).
    pose proof (run_clock_monotone rest m1 m' Hrun). lia.
Qed.

(** X10.  After [start] with a non-negative interval on an inactive
    instance that has no handler queued, no invocation begins before the
    clock reading at [start] plus the interval, whatever is called
    afterwards and whatever the clock, the timer and the worker do, as
    long as the clock reading plus the interval stays a value of a time
    point. *)
Theorem first_invocation_after_interval
    (i : Z) (cb : nat) (ok : bool) (history : list event)
    (m m' : Machine) :
  0 <= i ->
  - 2 ^ 63 <= now m ->
  is_running_ (exec m) = false ->
  ready (io_context_ (exec m)) = [] ->
  run (call_start i cb ok :: history) m = Some m' ->
  now m' + exact_ns i < 2 ^ 63 ->
  exists recent,
    invoked m' = invoked m ++ recent /\
    Forall (fun call => now m + exact_ns i <= snd call) recent.
Proof.
  intros Hi Hlow Hr Hq. cbn [run step].
  rewrite (start_when_inactive i cb ok m Hr). cbn [snd]. intros Hrun Hhigh.
  pose proof (run_clock_monotone _ _ _ Hrun) as Hmono. cbn [now] in Hmono.
  apply (run_on_schedule (now m) i (invoked m)) in Hrun;
    [|exact Hi|exact Hlow|exact Hhigh|].
  - destruct Hrun as (_ & H & _). exact H.
  - unfold on_schedule. members. rewrite Hq.
    assert (Hni : 0 <= exact_ns i) by (unfold exact_ns; lia).
    rewrite time_plus_exact by (unfold int64; lia).
    split; [lia|split].
    + exists []. split; [now rewrite app_nil_r | constructor].
    + right. split; [reflexivity|split; [reflexivity|split]].
      * left. lia.
      * rewrite has_fired_cancelled. discriminate.
Qed.

Lemma first_invocation_after_interval_witness :
  exists recent,
    invoked sample_final = invoked (fresh 9 0) ++ recent /\
    Forall (fun call => now (fresh 9 0) + exact_ns 50 <= snd call) recent.
Proof.
  apply (first_invocation_after_interval 50 3%nat true
           (tl sample_history) (fresh 9 0) sample_final).
  - lia.
  - lazy. discriminate.
  - reflexivity.
  - reflexivity.
  - lazy. reflexivity.
  - lazy. reflexivity.
Defined.

(** ** Callbacks shorter than the interval *)

Lemma wake_times_on_grid (ds : list N) (t a p : Z) :
  t <= a ->
  Forall (fun d => Z.of_N d <= p) ds ->
  wake_times ds t a p =
  map (fun j => a + Z.of_nat j * p) (seq 0 (length ds)).
Proof.
  revert t a. induction ds as [|d rest IH]; intros t a Ht Hd.
  - reflexivity.
  - inversion Hd as [|? ? Hd1 Hd2]; subst.
    cbn [wake_times length seq map].
    rewrite (Z.max_r t a Ht). f_equal; [simpl; lia|].
    rewrite (IH (a + Z.of_N d) (a + p)); [|lia|exact Hd2].
    rewrite <- seq_shift, map_map. apply map_ext.
    intros j. rewrite Nat2Z.inj_succ. lia.
Qed.

(** X11.  When the first anchor is not in the past, no callback lasts
    longer than the interval and the anchors stay values of a time point,
    an armed loop invokes the callback exactly at the anchor, the anchor
    plus one interval, plus two, and so on: the time a callback takes is
    not added to the schedule. *)
Theorem punctual_loop_stays_on_grid
    (cb : nat) (m : Machine) (ds : list N) :
  armed cb m ->
  int64 (expiry (timer_ (exec m))) ->
  int64 (expiry (timer_ (exec m))
         + Z.of_nat (length ds) * exact_ns (interval_ (exec m))) ->
  now m <= expiry (timer_ (exec m)) ->
  Forall (fun d => Z.of_N d <= exact_ns (interval_ (exec m))) ds ->
  exists m',
    worker_loop ds m = Some m' /\
    invoked m' =
      invoked m
      ++ map (fun j => (cb, expiry (timer_ (exec m))
                            + Z.of_nat j * exact_ns (interval_ (exec m))))
             (seq 0 (length ds)).
Proof.
  intros Ha He Hn Ht Hd.
  destruct (worker_loop_armed cb ds m Ha He Hn)
    as (m' & Hl & _ & _ & _ & Hv).
  exists m'. split; [exact Hl|].
  rewrite Hv, (wake_times_on_grid ds _ _ _ Ht Hd), map_map. reflexivity.
Qed.

Lemma punctual_loop_stays_on_grid_witness :
  exists m',
    worker_loop [10000000%N; 100000000%N; 0%N; 99999999%N] running_machine
      = Some m' /\
    invoked m' =
      invoked running_machine
      ++ map (fun j => (7%nat, 100000000 + Z.of_nat j * exact_ns 100))
             (seq 0 4).
Proof.
  apply (punctual_loop_stays_on_grid 7%nat running_machine
           [10000000%N; 100000000%N; 0%N; 99999999%N]).
  - lazy. repeat split.
  - in_range.
  - in_range.
  - lazy. discriminate.
  - repeat constructor; lazy; discriminate.
Defined.

(** * The wake handler interleaved with the controller *)

Ltac run_interleave :=
  cbv [interleave stop_action stop_joining destroy_joining handler_after_stop
       handler_begin handler_finish handler_statement handle_wait_guard
       handle_wait_expires_at option_map machine handler];
  run_step.

(** The statements are those of [handle_wait], in its order. *)
Lemma handle_wait_in_statements
    (error : error_code) (run : execution) (m : Machine) :
  handle_wait error run m =
  (go <- handle_wait_guard error ;;
   if go then
     invoke_callback run ;; handle_wait_expires_at ;; timer_async_wait
   else ret tt) m.
Proof.
  destruct m as [[c [q st] [x k] g w iv r p] n l].
  unfold handle_wait, handle_wait_guard, handle_wait_expires_at.
  run_monad.
  destruct (error_code_eqb error operation_aborted || p); cbn [negb];
    [reflexivity|].
  destruct c, run; reflexivity.
Qed.

(** With no handler in progress, [stop] with its join is [stop]. *)
Lemma stop_joining_idle (run : execution) (m : Machine) :
  stop_joining run handler_idle m = stop m.
Proof.
  destruct m as [[c [q st] [x k] g w iv r p] n l].
  unfold stop_joining, stop, handler_finish, handler_statement. run_monad.
  destruct r, w; reflexivity.
Qed.

(** Between the guard and the call of the callback, [pause] returns: the
    callback runs on a paused instance. *)
Example pause_between_guard_and_callback :
  option_map (fun c => (schedule_state (exec (machine c)), invoked (machine c)))
    (concurrent_run [act_begin; act call_pause; act_statement 0]
                    (mk_concurrent due_machine handler_idle))
  = Some (Paused, [(7%nat, 100000000)]).
Proof. vm_compute. reflexivity. Qed.

(** [stop] called during a callback: the handler sets the expiry and starts
    a wait while [stop] blocks in the join, and the wait outlives it. *)
Example stop_during_callback :
  option_map (fun c => (is_running_ (exec (machine c)),
                        waiting (timer_ (exec (machine c))),
                        invoked (machine c)))
    (concurrent_run [act_begin; act_stop 5]
                    (mk_concurrent due_machine handler_idle))
  = Some (false, 1%nat, [(7%nat, 100000000)]).
Proof. vm_compute. reflexivity. Qed.

(** [resume] between the handler's two timer statements: two waits are
    outstanding. *)
Example resume_between_timer_statements :
  option_map (fun c => (schedule_state (exec (machine c)),
                        waiting (timer_ (exec (machine c)))))
    (concurrent_run [act_begin; act call_pause; act_statement 0;
                     act_statement 0; act call_resume; act_statement 0]
                    (mk_concurrent due_machine handler_idle))
  = Some (Running, 2%nat).
Proof. vm_compute. reflexivity. Qed.

Lemma interleave_held (a : action) (c : Concurrent) :
  action_is_resume a = false ->
  handler c = handler_idle ->
  (is_running_ (exec (machine c)) = true /\
   is_paused_ (exec (machine c)) = true)
  \/ stopped (io_context_ (exec (machine c))) = true ->
  exists c',
    interleave a c = Some c' /\
    handler c' = handler_idle /\
    invoked (machine c') = invoked (machine c) /\
    ((is_running_ (exec (machine c')) = true /\
      is_paused_ (exec (machine c')) = true)
     \/ stopped (io_context_ (exec (machine c'))) = true).
Proof.
  destruct c as [m h]. cbn [machine handler]. intros Ha -> Hheld.
  assert (Hstop : forall d,
            exists c',
              stop_action d (mk_concurrent m handler_idle) = Some c' /\
              handler c' = handler_idle /\
              invoked (machine c') = invoked m /\
              ((is_running_ (exec (machine c')) = true /\
                is_paused_ (exec (machine c')) = true)
               \/ stopped (io_context_ (exec (machine c'))) = true)).
  { intros d. unfold stop_action. cbn [machine handler].
    rewrite stop_joining_idle.
    destruct (step_held call_stop m eq_refl Hheld) as (m' & Hs & Hv & Hh).
    cbn [step] in Hs. injection Hs as Hs.
    destruct (stop m) as [[[]|ex] m0] eqn:E; cbn [snd] in Hs; subst m0.
    - eexists. split; [reflexivity|]. cbn [machine handler].
      split; [|split; [exact Hv | exact Hh]].
      unfold handler_after_stop.
      destruct (is_running_ (exec m) && worker_thread_ (exec m)); reflexivity.
    - exfalso. unfold stop in E.
      destruct m as [[c0 [q st] [x k] g w iv r p] n l].
      revert E. run_monad. destruct r, w; discriminate. }
  destruct a as [e|d| |d].
  - destruct e as [j cb' ok| | | |dt| |d];
      try (cbn [interleave handler machine];
           match goal with
           | |- context [step ?e m] =>
               destruct (step_held e m Ha Hheld) as (m' & Hs & Hv & Hh);
               rewrite Hs; cbn [option_map];
               eexists; split; [reflexivity|];
               cbn [machine handler]; auto
           end; fail).
    apply (Hstop 0%N).
  - apply Hstop.
  - cbn [interleave handler machine].
    destruct m as [[c0 [q st] [x k] g w iv r p] n l].
    cbn [machine exec is_running_ is_paused_ io_context_ stopped] in Hheld.
    run_interleave.
    destruct w, st, q as [|error q]; cbn [andb negb];
      try (eexists; split; [reflexivity|];
           cbn [machine handler]; members; auto; fail).
    destruct Hheld as [[-> ->]|H]; [|discriminate].
    rewrite orb_true_r. cbn [negb].
    eexists; split; [reflexivity|].
    cbn [machine handler]; members; auto.
  - cbn [interleave handler machine handler_statement]. unfold ret.
    eexists; split; [reflexivity|]. cbn [machine handler]. auto.
Qed.

(** X3.  From a paused instance with no handler in progress, as long as
    [resume] is not called, nothing invokes the callback: not the passing
    of time, not a wake that was already queued when [pause] was called,
    not [stop], and not a [start] that follows a [stop], with the handler
    taken statement by statement.  No such history ends the program.  A
    handler that had passed its guard before [pause] returned is another
    matter: its callback runs on the paused instance. *)
Theorem paused_never_invokes (history : list action) (c : Concurrent) :
  schedule_state (exec (machine c)) = Paused ->
  handler c = handler_idle ->
  forallb (fun a => negb (action_is_resume a)) history = true ->
  exists c',
    concurrent_run history c = Some c' /\
    invoked (machine c') = invoked (machine c).
Proof.
  intros Hp Hidle Hh.
  assert (H0 : (is_running_ (exec (machine c)) = true /\
                is_paused_ (exec (machine c)) = true)
               \/ stopped (io_context_ (exec (machine c))) = true).
  { left. unfold schedule_state in Hp.
    destruct (is_running_ (exec (machine c))),
      (is_paused_ (exec (machine c))),
      (stopped (io_context_ (exec (machine c)))); try discriminate; auto. }
  clear Hp. revert c Hidle H0.
  induction history as [|a rest IH]; intros c Hidle H0.
  - exists c. split; reflexivity.
  - cbn [forallb] in Hh. apply andb_prop in Hh. destruct Hh as [Ha Hrest].
    apply negb_true_iff in Ha.
    destruct (interleave_held a c Ha Hidle H0) as (c1 & Hs & Hi1 & Hv & H1).
    destruct (IH Hrest c1 Hi1 H1) as (c' & Hr & Hv').
    exists c'. split; [|congruence].
    cbn [concurrent_run]. rewrite Hs. exact Hr.
Qed.

Lemma paused_never_invokes_witness :
  exists c',
    concurrent_run
      [act (ev_clock 100000000); act ev_expire; act_begin; act_statement 5;
       act (ev_dispatch 5); act call_pause; act (ev_clock 900000000);
       act ev_expire; act_begin; act_stop 5; act (call_start 10 8%nat true);
       act (ev_clock 900000000); act ev_expire; act_begin; act_statement 5]
      (mk_concurrent paused_machine handler_idle) = Some c' /\
    invoked (machine c') = invoked paused_machine.
Proof.
  apply (paused_never_invokes
           [act (ev_clock 100000000); act ev_expire; act_begin;
            act_statement 5; act (ev_dispatch 5); act call_pause;
            act (ev_clock 900000000); act ev_expire; act_begin; act_stop 5;
            act (call_start 10 8%nat true); act (ev_clock 900000000);
            act ev_expire; act_begin; act_statement 5]
           (mk_concurrent paused_machine handler_idle)).
  - reflexivity.
  - reflexivity.
  - reflexivity.
Defined.

(** ** The destructor *)







(** * The measurement callback of the benchmark *)

Lemma measure_from
    (readings : list Z) (b : Measurements) :
  first_execution_time_ns b <> 0 ->
  last_actual_execution_ns b <> 0 ->
  0 <= counter b ->
  counter b + Z.of_nat (length readings) < 2 ^ 31 ->
  Forall (fun t => t <> 0) readings ->
  counter (measure readings b) = counter b + Z.of_nat (length readings) /\
  first_execution_time_ns (measure readings b) = first_execution_time_ns b /\
  timing_data (measure readings b) =
    timing_data b
    ++ firstn (Z.to_nat (10000 - Z.of_nat (length (timing_data b))))
         (samples_after (first_execution_time_ns b) (counter b)
            (last_actual_execution_ns b) readings).
Proof.
  revert b. induction readings as [|t rest IH]; intros b Hf Hl Hc Hn Hz.
  - cbn [measure fold_left length samples_after]. rewrite firstn_nil, app_nil_r.
    repeat split. simpl. lia.
  - inversion Hz as [|? ? Ht Hrest]; subst.
    cbn [length] in Hn. rewrite Nat2Z.inj_succ in Hn.
    change (measure (t :: rest) b)
      with (measure rest (measurement_callback t b)).
    assert (Hw : wrap 32 (counter b + 1) = counter b + 1).
    { apply wrap_in_range; [lia|].
      change (2 ^ (32 - 1)) with (2 ^ 31). lia. }
    assert (Hb : measurement_callback t b =
             mk_measurements (counter b + 1)
               (wrap 64 (total_instantaneous_drift_ns b
                         + Z.abs (t - last_actual_execution_ns b
                                  - DESIRED_INTERVAL_NS)))
               t (first_execution_time_ns b)
               (if Z.of_nat (length (timing_data b)) <? 10000
                then timing_data b
                     ++ [(Z.abs (t - last_actual_execution_ns b
                                 - DESIRED_INTERVAL_NS),
                          t - (first_execution_time_ns b
                               + (counter b + 1) * DESIRED_INTERVAL_NS))]
                else timing_data b)).
    { unfold measurement_callback.
      destruct (Z.eqb_spec (first_execution_time_ns b) 0) as [E|_];
        [contradiction|].
      destruct (Z.eqb_spec (last_actual_execution_ns b) 0) as [E|_];
        [contradiction|].
      rewrite Hw. reflexivity. }
    rewrite Hb.
    match goal with |- context [measure rest ?x] => set (b1 := x) end.
    destruct (IH b1) as (Hc1 & Hf1 & Hd1); subst b1;
      cbn [counter first_execution_time_ns last_actual_execution_ns
           timing_data]; try assumption; try lia.
    cbn [counter first_execution_time_ns last_actual_execution_ns
         timing_data] in *.
    rewrite Hc1, Hf1, Hd1. cbn [length samples_after].
    rewrite Nat2Z.inj_succ.
    split; [lia|split; [reflexivity|]].
    destruct (Z.ltb_spec (Z.of_nat (length (timing_data b))) 10000)
      as [Hlt|Hge].
    + rewrite <- app_assoc, length_app. cbn [length app].
      replace (Z.to_nat (10000 - Z.of_nat (length (timing_data b))))
        with (S (Z.to_nat
                   (10000 - Z.of_nat (length (timing_data b) + 1))))
        by lia.
      reflexivity.
    + replace (Z.to_nat (10000 - Z.of_nat (length (timing_data b))))
        with 0%nat by lia.
      reflexivity.
Qed.

Lemma samples_after_length (first k prev : Z) (readings : list Z) :
  length (samples_after first k prev readings) = length readings.
Proof.
  revert k prev. induction readings as [|t rest IH]; intros k prev; simpl;
    [reflexivity | now rewrite IH].
Qed.

Lemma samples_after_nth (first k prev : Z) (readings : list Z) (j : nat) :
  (j < length readings)%nat ->
  nth j (samples_after first k prev readings) (0, 0) =
  (Z.abs (nth j readings 0 - nth j (prev :: readings) 0
          - DESIRED_INTERVAL_NS),
   nth j readings 0
   - (first + (k + Z.of_nat j + 1) * DESIRED_INTERVAL_NS)).
Proof.
  revert k prev j. induction readings as [|t rest IH]; intros k prev j Hj;
    cbn [length] in Hj; [lia|].
  destruct j as [|j].
  - cbn [samples_after nth Z.of_nat]. do 3 f_equal. lia.
  - cbn [samples_after]. change (nth (S j) (?x :: ?l) ?d) with (nth j l d).
    rewrite IH by lia. rewrite Nat2Z.inj_succ. do 3 f_equal. lia.
Qed.

Lemma first_measurement (t0 : Z) :
  t0 <> 0 ->
  measurement_callback t0 no_measurements = mk_measurements 1 0 t0 t0 [].
Proof.
  intros H. unfold measurement_callback, no_measurements.
  cbn [first_execution_time_ns last_actual_execution_ns counter
       total_instantaneous_drift_ns timing_data].
  reflexivity.
Qed.

(** X12.  A run of the benchmark whose clock readings are never the sentinel 0
    and that stays below 2^31 executions.  The counter counts every
    execution, the first reading is the anchor, and the first execution
    yields no sample.  Execution [k], counted from 0, yields the sample
    with index [k - 1]: the distance of its interval from 1 ms, and its
    reading minus [anchor + (k + 1) * 1 ms], as the counter has already
    been incremented for the execution when the expected time is taken.
    Samples beyond the 10000th are not stored. *)
Theorem benchmark_samples (t0 : Z) (rest : list Z) :
  Forall (fun t => t <> 0) (t0 :: rest) ->
  Z.of_nat (length (t0 :: rest)) < 2 ^ 31 ->
  counter (measure (t0 :: rest) no_measurements)
    = Z.of_nat (length (t0 :: rest)) /\
  first_execution_time_ns (measure (t0 :: rest) no_measurements) = t0 /\
  Z.of_nat (length (timing_data (measure (t0 :: rest) no_measurements)))
    = Z.min (Z.of_nat (length rest)) 10000 /\
  forall j,
    (j < length rest)%nat -> Z.of_nat j < 10000 ->
    nth j (timing_data (measure (t0 :: rest) no_measurements)) (0, 0) =
    (Z.abs (nth j rest 0 - nth j (t0 :: rest) 0 - DESIRED_INTERVAL_NS),
     nth j rest 0 - (t0 + (Z.of_nat j + 2) * DESIRED_INTERVAL_NS)).
Proof.
  intros Hz Hn. inversion Hz as [|? ? Ht0 Hrest]; subst.
  change (measure (t0 :: rest) no_measurements)
    with (measure rest (measurement_callback t0 no_measurements)).
  rewrite (first_measurement t0 Ht0).
  cbn [length] in Hn. rewrite Nat2Z.inj_succ in Hn.
  destruct (measure_from rest (mk_measurements 1 0 t0 t0 []))
    as (Hc & Hf & Hd);
    cbn [counter first_execution_time_ns last_actual_execution_ns
         timing_data length]; try assumption; try lia.
  cbn [counter first_execution_time_ns last_actual_execution_ns
       timing_data length app] in *.
  rewrite Hc, Hf, Hd.
  split; [rewrite Nat2Z.inj_succ; lia|split; [reflexivity|split]].
  - rewrite length_firstn, samples_after_length. lia.
  - intros j Hj Hcap. rewrite nth_firstn.
    destruct (Nat.ltb_spec j (Z.to_nat (10000 - Z.of_nat 0))) as [_|H];
      [|lia].
    rewrite samples_after_nth by exact Hj. do 3 f_equal. lia.
Qed.

Lemma benchmark_samples_witness :
  counter (measure [5000; 1005000; 2005500; 3004000] no_measurements)
    = Z.of_nat 4 /\
  first_execution_time_ns
    (measure [5000; 1005000; 2005500; 3004000] no_measurements) = 5000 /\
  Z.of_nat (length (timing_data
     (measure [5000; 1005000; 2005500; 3004000] no_measurements)))
    = Z.min (Z.of_nat 3) 10000 /\
  forall j,
    (j < 3)%nat -> Z.of_nat j < 10000 ->
    nth j (timing_data
             (measure [5000; 1005000; 2005500; 3004000] no_measurements))
        (0, 0) =
    (Z.abs (nth j [1005000; 2005500; 3004000] 0
            - nth j [5000; 1005000; 2005500; 3004000] 0
            - DESIRED_INTERVAL_NS),
     nth j [1005000; 2005500; 3004000] 0
     - (5000 + (Z.of_nat j + 2) * DESIRED_INTERVAL_NS)).
Proof.
  apply (benchmark_samples 5000 [1005000; 2005500; 3004000]).
  - repeat constructor; discriminate.
  - reflexivity.
Defined.

Example benchmark_samples_trace :
  timing_data (measure [5000; 1005000; 2005500; 3004000] no_measurements)
  = [(0, -1000000); (500, -999500); (1500, -1001000)].
Proof. reflexivity. Qed.

Lemma samples_after_ideal (first : Z) (n s : nat) (k prev : Z) :
  k = Z.of_nat s ->
  prev = first + (Z.of_nat s - 1) * DESIRED_INTERVAL_NS ->
  samples_after first k prev
    (map (fun j => first + Z.of_nat j * DESIRED_INTERVAL_NS) (seq s n))
  = repeat (0, - DESIRED_INTERVAL_NS) n.
Proof.
  revert s k prev. induction n as [|n IH]; intros s k prev Hk Hp.
  - reflexivity.
  - cbn [seq map samples_after repeat]. f_equal.
    + subst k prev. f_equal; lia.
    + apply IH; subst; rewrite ?Nat2Z.inj_succ; lia.
Qed.

Lemma firstn_of_repeat (A : Type) (x : A) (m n : nat) :
  firstn m (repeat x n) = repeat x (Nat.min m n).
Proof.
  revert n. induction m as [|m IH]; intros n; [reflexivity|].
  destruct n as [|n]; [reflexivity|].
  cbn [repeat firstn Nat.min]. now rewrite IH.
Qed.

(** X13.  On an ideal run, the executions exactly 1 ms apart, every stored sample
    has jitter 0 and phase error minus 1 ms, not 0: the expected time of an
    execution is taken one interval too late. *)
Theorem benchmark_ideal_run (t0 : Z) (n : nat) :
  0 < t0 ->
  Z.of_nat n + 1 < 2 ^ 31 ->
  timing_data
    (measure
       (map (fun j => t0 + Z.of_nat j * DESIRED_INTERVAL_NS) (seq 0 (S n)))
       no_measurements)
  = repeat (0, - DESIRED_INTERVAL_NS)
           (Z.to_nat (Z.min (Z.of_nat n) 10000)).
Proof.
  intros Ht Hn. cbn [seq map]. rewrite <- seq_shift.
  change (measure (?t :: ?rest) no_measurements)
    with (measure rest (measurement_callback t no_measurements)).
  replace (t0 + Z.of_nat 0 * DESIRED_INTERVAL_NS) with t0 by (simpl; lia).
  rewrite (first_measurement t0) by lia.
  rewrite seq_shift.
  destruct (measure_from
              (map (fun j => t0 + Z.of_nat j * DESIRED_INTERVAL_NS) (seq 1 n))
              (mk_measurements 1 0 t0 t0 []))
    as (_ & _ & Hd);
    cbn [counter first_execution_time_ns last_actual_execution_ns
         timing_data length]; try lia.
  - rewrite length_map, length_seq. lia.
  - apply Forall_forall. intros t Hin. apply in_map_iff in Hin.
    destruct Hin as (j & <- & _). unfold DESIRED_INTERVAL_NS. lia.
  - rewrite Hd.
    cbn [counter first_execution_time_ns last_actual_execution_ns
         timing_data length app].
    rewrite (samples_after_ideal t0 n 1 1 t0) by (simpl; lia).
    rewrite firstn_of_repeat. f_equal. lia.
Qed.

Lemma benchmark_ideal_run_witness :
  timing_data
    (measure
       (map (fun j => 777 + Z.of_nat j * DESIRED_INTERVAL_NS) (seq 0 (S 3)))
       no_measurements)
  = repeat (0, - DESIRED_INTERVAL_NS) (Z.to_nat (Z.min (Z.of_nat 3) 10000)).
Proof.
  apply (benchmark_ideal_run 777 3); [lia | reflexivity].
Defined.

(** X14.  Whatever the clock readings, the sentinel 0 included, the lambda only
    appends to the stored samples and never stores more than 10000. *)
Theorem benchmark_buffer_bounded (readings : list Z) (b : Measurements) :
  Z.of_nat (length (timing_data b)) <= 10000 ->
  Z.of_nat (length (timing_data (measure readings b))) <= 10000 /\
  exists more, timing_data (measure readings b) = timing_data b ++ more.
Proof.
  revert b. induction readings as [|t rest IH]; intros b Hb.
  - split; [exact Hb|]. exists []. now rewrite app_nil_r.
  - change (measure (t :: rest) b)
      with (measure rest (measurement_callback t b)).
    assert (H1 : Z.of_nat (length (timing_data (measurement_callback t b)))
                 <= 10000 /\
                 exists one, timing_data (measurement_callback t b)
                             = timing_data b ++ one).
    { unfold measurement_callback.
      destruct (last_actual_execution_ns b =? 0); cbn [timing_data].
      - split; [exact Hb|]. exists []. now rewrite app_nil_r.
      - destruct (Z.ltb_spec (Z.of_nat (length (timing_data b))) 10000).
        + split; [rewrite length_app; cbn [length]; lia|]. eexists. reflexivity.
        + split; [exact Hb|]. exists []. now rewrite app_nil_r. }
    destruct H1 as (Hlen & one & Hone).
    destruct (IH _ Hlen) as (Hfin & more & Hmore).
    split; [exact Hfin|].
    exists (one ++ more). rewrite Hmore, Hone, app_assoc. reflexivity.
Qed.

Lemma benchmark_buffer_bounded_witness :
  Z.of_nat (length (timing_data
     (measure [5000; 0; 1005000; 2005500] no_measurements))) <= 10000 /\
  exists more,
    timing_data (measure [5000; 0; 1005000; 2005500] no_measurements)
    = timing_data no_measurements ++ more.
Proof.
  apply (benchmark_buffer_bounded [5000; 0; 1005000; 2005500] no_measurements).
  simpl. lia.
Defined.

(** * The callback of the small benchmark *)

Lemma small_benchmark_punctual_from (e : Z) (n s : nat) (b : SmallBenchmark.Totals) :
  0 <= e ->
  SmallBenchmark.counter b = Z.of_nat s ->
  0 <= SmallBenchmark.total_drift_ns b ->
  Z.of_nat (s + n) < 2 ^ 31 ->
  SmallBenchmark.total_drift_ns b + Z.of_nat n * (1000000 + e) < 2 ^ 63 ->
  SmallBenchmark.measure
    (map (fun k => (Z.of_nat k + 1) * 1000000 + e) (seq s n)) b
  = SmallBenchmark.mk_totals
      (Z.of_nat (s + n))
      (SmallBenchmark.total_drift_ns b + Z.of_nat n * (1000000 + e)).
Proof.
  intros He. revert s b. induction n as [|n IH]; intros s b Hc Ht Hs Hsum.
  - cbn [seq map SmallBenchmark.measure fold_left].
    destruct b as [c t]. cbn in *. subst c. f_equal; lia.
  - cbn [seq map].
    change (SmallBenchmark.measure (?t :: ?rest) b)
      with (SmallBenchmark.measure rest (SmallBenchmark.callback t b)).
    assert (Hb : SmallBenchmark.callback ((Z.of_nat s + 1) * 1000000 + e) b
                 = SmallBenchmark.mk_totals (Z.of_nat (S s))
                     (SmallBenchmark.total_drift_ns b + (1000000 + e))).
    { unfold SmallBenchmark.callback. rewrite Hc.
      replace (Z.abs ((Z.of_nat s + 1) * 1000000 + e - Z.of_nat s * 1000000))
        with (1000000 + e) by lia.
      rewrite (wrap_in_range 32), (wrap_in_range 64);
        change (2 ^ (64 - 1)) with (2 ^ 63);
        change (2 ^ (32 - 1)) with (2 ^ 31); try lia.
      f_equal. lia. }
    rewrite Hb, IH; cbn [SmallBenchmark.counter SmallBenchmark.total_drift_ns];
      try lia.
    f_equal; lia.
Qed.

(** X15.  A perfectly punctual run, the first execution one interval after
    [start] and each next one 1 ms later, [e] nanoseconds after the reading
    the program took before [start]: the reported average drift is not [e]
    but 1 ms plus [e], since execution [k] is expected at [k] intervals,
    the first at none.  With no execution at all the program divides by
    zero. *)
Theorem small_benchmark_punctual_run (e : Z) (n : nat) :
  0 <= e ->
  (0 < n)%nat ->
  Z.of_nat n < 2 ^ 31 ->
  Z.of_nat n * (1000000 + e) < 2 ^ 63 ->
  SmallBenchmark.average_drift
    (SmallBenchmark.measure
       (map (fun k => (Z.of_nat k + 1) * 1000000 + e) (seq 0 n))
       SmallBenchmark.initial)
  = Some (1000000 + e) /\
  SmallBenchmark.average_drift SmallBenchmark.initial = None.
Proof.
  intros He Hn H31 H63. split; [|reflexivity].
  rewrite (small_benchmark_punctual_from e n 0 SmallBenchmark.initial);
    cbn [SmallBenchmark.initial SmallBenchmark.counter
         SmallBenchmark.total_drift_ns Nat.add]; try lia; try reflexivity.
  unfold SmallBenchmark.average_drift.
  cbn [SmallBenchmark.counter SmallBenchmark.total_drift_ns].
  destruct (Z.eqb_spec (Z.of_nat n) 0) as [E|_]; [lia|].
  f_equal. rewrite Z.add_0_l, Z.mul_comm. apply Z.quot_mul. lia.
Qed.

Lemma small_benchmark_punctual_run_witness :
  SmallBenchmark.average_drift
    (SmallBenchmark.measure
       (map (fun k => (Z.of_nat k + 1) * 1000000 + 250) (seq 0 5))
       SmallBenchmark.initial)
  = Some (1000000 + 250) /\
  SmallBenchmark.average_drift SmallBenchmark.initial = None.
Proof.
  apply (small_benchmark_punctual_run 250 5); try lia; reflexivity.
Defined.
